(** * Contact book: a shallow embedding of [contact_book.py]

    The program keeps a list of contacts in [contacts.csv], exports it to and
    imports it from [contacts.json], and appends audit lines to
    [error_log.txt].  Every operation reads its arguments from standard input
    and reports on standard output.

    Modelling choices.

    - Text.  A Python [str] is the [string] of its UTF-8 bytes, so equality,
      concatenation and the substring test are those of the text; a
      character is a code point, counted and cut at the bytes that start one
      ([char_length], [take_chars]).  A [str] that UTF-8 cannot encode (one
      with a lone surrogate) is outside the model.
    - [str.strip], [str.lower] and [repr] depend on the Unicode database and
      the order in which a set is walked on the hash seed.  They are taken
      from the [Runtime] the program runs on, with the few laws the proofs
      use; every theorem holds for every runtime.  The examples are run on
      [ascii_runtime], which computes these functions on ASCII text as
      CPython does.
    - The files, the two standard streams and the clock form the [world]; a
      computation is a function from the world to an [outcome]: a value or a
      raised exception, either one with the world it leaves behind.  The
      clock is one reading, which the model does not advance.
    - [contacts.csv] is held as the sequence of records written to it (a
      record is a list of fields, a blank line is the empty record); the
      quoting of the [excel] dialect is below the model.  The file is
      written with [newline=""] and read without it, so a field is read back
      with its line ends translated ([Csv.universal]), and the reader
      refuses a field beyond its size limit ([Csv.field_limit]).
      [csv.DictReader] and [csv.DictWriter] are modelled on top of that, with
      their defaults: [restkey=None], [restval=None], [extrasaction='raise'].
    - [contacts.json] is held as the value [json.load] parses out of it, or
      as unparseable with the decoder's message.
    - Failures of the operating system (permissions, full disk) are not
      modelled.
    - The behaviour is that of CPython 3.11.  The theorems on the single
      operations come first, those on listing, the menu loop and the entry
      point in the second part of the file. *)

From Stdlib Require Import String Ascii List Bool Arith NArith ZArith Lia.
From Stdlib Require Import DecimalString Permutation.
Import ListNotations.
Open Scope string_scope.

Set Implicit Arguments.
Set Warnings "-register-all".

(* ================================================================= *)
(** ** Text *)

Module Text.

Definition lf : ascii := ascii_of_nat 10.
Definition cr : ascii := ascii_of_nat 13.

Definition nl : string := String lf "".

(** [t in s] on strings: [t] occurs in [s] as a contiguous substring. *)
Fixpoint contains (s t : string) : bool :=
  prefix t s ||
  match s with
  | EmptyString => false
  | String _ r => contains r t
  end.

(** [c in s] for one character of the ASCII range. *)
Fixpoint has_char (c : ascii) (s : string) : bool :=
  match s with
  | EmptyString => false
  | String d r => Ascii.eqb c d || has_char c r
  end.

(** [", ".join(l)] and friends. *)
Fixpoint join (sep : string) (l : list string) : string :=
  match l with
  | [] => ""
  | [x] => x
  | x :: r => x ++ sep ++ join sep r
  end.

(** [str(n)] for a length. *)
Definition of_nat (n : nat) : string :=
  NilZero.string_of_uint (Nat.to_uint n).

(** [str(z)] for an integer. *)
Definition of_Z (z : Z) : string :=
  NilZero.string_of_int (Z.to_int z).

(** A byte that continues a character of more than one byte. *)
Definition is_continuation (c : ascii) : bool :=
  let n := nat_of_ascii c in ((128 <=? n) && (n <? 192))%nat.

(** [len(s)]: the number of characters. *)
Fixpoint char_length (s : string) : nat :=
  match s with
  | EmptyString => 0
  | String c r => if is_continuation c then char_length r else S (char_length r)
  end.

(** [s[:n]]: the first [n] characters. *)
Fixpoint take_chars (n : nat) (s : string) : string :=
  match s with
  | EmptyString => EmptyString
  | String c r =>
      if is_continuation c then String c (take_chars n r)
      else match n with
           | O => EmptyString
           | S m => String c (take_chars m r)
           end
  end.

(** [" " * n] and ["-" * n] *)
Fixpoint spaces (n : nat) : string :=
  match n with
  | O => ""
  | S m => String " "%char (spaces m)
  end.

Fixpoint dashes (n : nat) : string :=
  match n with
  | O => ""
  | S m => String "-"%char (dashes m)
  end.

(** [s.ljust(width)], what the format [{s:width}] does to text. *)
Definition ljust (width : nat) (s : string) : string :=
  s ++ spaces (width - char_length s).

End Text.
Import Text.

(** What the program takes from the Python runtime: the functions of [str]
    that rest on the Unicode database, and the order in which the elements
    of a set of keys come out.  The laws are those of CPython that the
    proofs below use. *)
Class Runtime : Type := {
  strip : string -> string;                   (* [s.strip()] *)
  lower : string -> string;                   (* [s.lower()] *)
  repr : string -> string;                    (* [repr(s)] *)
  set_order : list string -> list string;     (* [list(set(l))] *)
  strip_empty : strip "" = "";
  strip_strip : forall s, strip (strip s) = strip s;
  lower_empty : lower "" = "";
  set_order_perm : forall l, Permutation (set_order l) l
}.

(** The same functions computed on ASCII text: the whitespace characters
    are 9-13 and 28-32, the cased letters A-Z. *)
Module AsciiText.

Definition is_space (c : ascii) : bool :=
  let n := nat_of_ascii c in
  (((9 <=? n) && (n <=? 13)) || ((28 <=? n) && (n <=? 32)))%nat.

Definition lower_char (c : ascii) : ascii :=
  let n := nat_of_ascii c in
  if ((65 <=? n) && (n <=? 90))%nat then ascii_of_nat (n + 32) else c.

Fixpoint lower (s : string) : string :=
  match s with
  | EmptyString => EmptyString
  | String c r => String (lower_char c) (lower r)
  end.

Fixpoint lstrip (s : string) : string :=
  match s with
  | EmptyString => EmptyString
  | String c r => if is_space c then lstrip r else s
  end.

Fixpoint rstrip (s : string) : string :=
  match s with
  | EmptyString => EmptyString
  | String c r =>
      match rstrip r with
      | EmptyString => if is_space c then EmptyString else String c EmptyString
      | r' => String c r'
      end
  end.

Definition strip (s : string) : string := rstrip (lstrip s).

Definition hex_digit (n : nat) : ascii :=
  if (n <? 10)%nat then ascii_of_nat (48 + n) else ascii_of_nat (87 + n).

(** The body of [repr(s)], between its quotes: backslash and the chosen
    quote are escaped, tab, newline and carriage return are written
    symbolically, the other control characters as [\xhh]. *)
Fixpoint repr_body (q : ascii) (s : string) : string :=
  match s with
  | EmptyString => EmptyString
  | String c r =>
      let n := nat_of_ascii c in
      let rest := repr_body q r in
      if Ascii.eqb c "\"%char then String "\"%char (String "\"%char rest)
      else if Ascii.eqb c q then String "\"%char (String c rest)
      else if (n =? 9)%nat then String "\"%char (String "t"%char rest)
      else if (n =? 10)%nat then String "\"%char (String "n"%char rest)
      else if (n =? 13)%nat then String "\"%char (String "r"%char rest)
      else if ((n <? 32) || (n =? 127))%nat then
        String "\"%char (String "x"%char
          (String (hex_digit (n / 16)) (String (hex_digit (n mod 16)) rest)))
      else String c rest
  end.

Definition squote : ascii := ascii_of_nat 39.
Definition dquote : ascii := ascii_of_nat 34.

(** Single quotes, unless the text has a single quote and no double
    quote. *)
Definition repr (s : string) : string :=
  let q := if has_char squote s && negb (has_char dquote s)
           then dquote else squote in
  String q (repr_body q s ++ String q "").

End AsciiText.

(* ================================================================= *)
(** ** Python values the program handles *)

(** A contact as [csv.DictReader] yields it and as the program builds it: a
    [dict] in insertion order whose keys are column names and whose values
    are text or [None]; [csv.DictReader] adds, for a record longer than the
    header, the surplus fields as a list under the key [None] ([extra]). *)
Record contact : Type := mkContact {
  items : list (string * option string);
  extra : option (list string)
}.

(** [d.get(k)]: the outer [None] is a missing key. *)
Fixpoint dict_get {V : Type} (k : string) (d : list (string * V)) : option V :=
  match d with
  | [] => None
  | (k', v) :: r => if String.eqb k k' then Some v else dict_get k r
  end.

(** [d[k] = v]: an existing key keeps its place, a new one goes last. *)
Fixpoint dict_set {V : Type} (k : string) (v : V) (d : list (string * V))
  : list (string * V) :=
  match d with
  | [] => [(k, v)]
  | (k', v') :: r =>
      if String.eqb k k' then (k, v) :: r else (k', v') :: dict_set k v r
  end.

Definition set_item (k : string) (v : option string) (c : contact) : contact :=
  {| items := dict_set k v (items c); extra := extra c |}.

(** The value [json.load] returns.  A float is carried by the text [str]
    gives it.  The members of an object are kept in document order; a key
    written twice has, as in the [dict] Python builds, its last value. *)
Inductive json : Type :=
| JNull
| JBool (b : bool)
| JInt (z : Z)
| JFloat (text : string)
| JStr (s : string)
| JArr (l : list json)
| JObj (members : list (string * json)).

Inductive json_content : Type :=
| Unparseable (detail : string)
| Document (v : json).

Inductive exn : Type :=
| EOFError
| FileNotFoundError (path : string)
| KeyError (key : string)
| AttributeError (msg : string)
| ValueError (msg : string)
| JSONDecodeError (msg : string)
| CsvError (msg : string).

(** [str(e)] *)
Definition exn_str {rt : Runtime} (e : exn) : string :=
  match e with
  | EOFError => ""
  | FileNotFoundError p => "[Errno 2] No such file or directory: " ++ repr p
  | KeyError k => repr k
  | AttributeError m => m
  | ValueError m => m
  | JSONDecodeError m => m
  | CsvError m => m
  end.

(* ================================================================= *)
(** ** The world and the monad of effects *)

Record world : Type := mkWorld {
  csv_file : option (list (list string));  (* contacts.csv, [None]: absent *)
  json_file : option json_content;         (* contacts.json *)
  log_file : list string;                  (* error_log.txt, line by line *)
  stdin : list string;                     (* lines still to be read *)
  stdout : list string;                    (* what was printed, in order *)
  now : string                             (* the clock, as strftime prints it *)
}.

Definition set_csv (f : option (list (list string))) (w : world) : world :=
  {| csv_file := f; json_file := json_file w; log_file := log_file w;
     stdin := stdin w; stdout := stdout w; now := now w |}.

Definition set_json (j : option json_content) (w : world) : world :=
  {| csv_file := csv_file w; json_file := j; log_file := log_file w;
     stdin := stdin w; stdout := stdout w; now := now w |}.

Definition set_log (l : list string) (w : world) : world :=
  {| csv_file := csv_file w; json_file := json_file w; log_file := l;
     stdin := stdin w; stdout := stdout w; now := now w |}.

Definition set_stdin (l : list string) (w : world) : world :=
  {| csv_file := csv_file w; json_file := json_file w; log_file := log_file w;
     stdin := l; stdout := stdout w; now := now w |}.

Definition set_stdout (l : list string) (w : world) : world :=
  {| csv_file := csv_file w; json_file := json_file w; log_file := log_file w;
     stdin := stdin w; stdout := l; now := now w |}.

Inductive outcome (A : Type) : Type :=
| Ok (a : A) (w : world)
| Raise (e : exn) (w : world).
Arguments Raise {A} e w.

Definition M (A : Type) : Type := world -> outcome A.

Definition ret {A} (a : A) : M A := fun w => Ok a w.

Definition bind {A B} (m : M A) (k : A -> M B) : M B :=
  fun w => match m w with
           | Ok a w' => k a w'
           | Raise e w' => Raise e w'
           end.

Definition raise {A} (e : exn) : M A := fun w => Raise e w.

(** [try: m  except Exception as e: h e] *)
Definition try_except {A} (m : M A) (h : exn -> M A) : M A :=
  fun w => match m w with
           | Ok a w' => Ok a w'
           | Raise e w' => h e w'
           end.

(** A pure computation that may raise. *)
Definition lift {A} (r : exn + A) : M A :=
  fun w => match r with inl e => Raise e w | inr a => Ok a w end.

Declare Scope py_scope.
Delimit Scope py_scope with py.
Notation "x <- m ;; k" := (bind m (fun x => k))
  (at level 61, m at next level, right associativity) : py_scope.
Notation "m ;;; k" := (bind m (fun _ => k))
  (at level 61, right associativity) : py_scope.
Open Scope py_scope.

(** The world an outcome leaves, and its value when there is one. *)
Definition world_of {A} (o : outcome A) : world :=
  match o with Ok _ w => w | Raise _ w => w end.

Definition value_of {A} (o : outcome A) : option A :=
  match o with Ok a _ => Some a | Raise _ _ => None end.

(** [print(s)] *)
Definition print (s : string) : M unit :=
  fun w => Ok tt (set_stdout (stdout w ++ [s])%list w).

(** [input(prompt)]: the prompt is written, one line is taken; at the end of
    the input [EOFError] is raised. *)
Definition input (prompt : string) : M string :=
  fun w =>
    let w1 := set_stdout (stdout w ++ [prompt])%list w in
    match stdin w with
    | [] => Raise EOFError w1
    | l :: r => Ok l (set_stdin r w1)
    end.

(** Binding in the pure fragment. *)
Definition rbind {A B} (r : exn + A) (k : A -> exn + B) : exn + B :=
  match r with inl e => inl e | inr a => k a end.

(* ================================================================= *)
(** ** Runs that may also end in a [TypeError] *)

(** [list_contacts] can fail in one more way than the other operations:
    slicing a field that is [None].  The exceptions of the whole program are
    those of the operations and this [TypeError]. *)
Inductive error : Type :=
| Op (e : exn)
| TypeError (msg : string).

Inductive run (A : Type) : Type :=
| Done (a : A) (w : world)
| Crash (e : error) (w : world).
Arguments Crash {A} e w.

Definition P (A : Type) : Type := world -> run A.

Definition run_world {A} (r : run A) : world :=
  match r with Done _ w => w | Crash _ w => w end.

(** An operation run inside the program. *)
Definition of_M {A} (m : M A) : P A :=
  fun w => match m w with
           | Ok a w' => Done a w'
           | Raise e w' => Crash (Op e) w'
           end.

Definition pbind {A B} (p : P A) (k : A -> P B) : P B :=
  fun w => match p w with
           | Done a w' => k a w'
           | Crash e w' => Crash e w'
           end.

(** A pure computation that may fail. *)
Definition plift {A} (r : error + A) : P A :=
  fun w => match r with inl e => Crash e w | inr a => Done a w end.

Definition ebind {A B} (r : error + A) (k : A -> error + B) : error + B :=
  match r with inl e => inl e | inr a => k a end.

(* ================================================================= *)
(** ** The [csv] and [json] layers *)

Definition CSV_FILE : string := "contacts.csv".
Definition JSON_FILE : string := "contacts.json".
Definition LOG_FILE : string := "error_log.txt".
Definition FIELDNAMES : list string := ["Name"; "Phone"; "Email"].

Module Csv.

(** What a file opened for reading without [newline=""] makes of the line
    ends inside a field: a carriage return, alone or before a line feed,
    comes out as one line feed. *)
Fixpoint universal (s : string) : string :=
  match s with
  | EmptyString => EmptyString
  | String c r =>
      if Ascii.eqb c cr then
        match r with
        | EmptyString => String lf EmptyString
        | String d _ => if Ascii.eqb d lf then universal r
                        else String lf (universal r)
        end
      else String c (universal r)
  end.

(** [csv.field_size_limit()], in characters. *)
Definition field_limit : N := 131072.

Definition within_limit (s : string) : bool :=
  (N.of_nat (char_length s) <=? field_limit)%N.

(** [list(csv.reader(f))]: the records of the file as they are read. *)
Definition reader (rows : list (list string)) : exn + list (list string) :=
  let records := map (map universal) rows in
  if forallb (forallb within_limit) records then inr records
  else inl (CsvError "field larger than field limit (131072)").

(** [dict(zip(fieldnames, row))], starting from [d]: pairs are taken while
    both lists last; a repeated name keeps its place and its last value. *)
Fixpoint zip_dict (fieldnames row : list string)
         (d : list (string * option string)) : list (string * option string) :=
  match fieldnames, row with
  | k :: ks, x :: xs => zip_dict ks xs (dict_set k (Some x) d)
  | _, _ => d
  end.

(** [for key in keys: d[key] = None] *)
Definition fill_restval (keys : list string)
           (d : list (string * option string)) : list (string * option string) :=
  fold_left (fun d k => dict_set k None d) keys d.

(** One step of [DictReader.__next__] on a non-blank record. *)
Definition row_to_dict (fieldnames row : list string) : contact :=
  let d := zip_dict fieldnames row [] in
  let lf := length fieldnames in
  let lr := length row in
  if (lf <? lr)%nat then {| items := d; extra := Some (skipn lf row) |}
  else if (lr <? lf)%nat then
    {| items := fill_restval (skipn lr fieldnames) d; extra := None |}
  else {| items := d; extra := None |}.

Definition is_blank (row : list string) : bool :=
  match row with [] => true | _ => false end.

(** The dicts [csv.DictReader] makes of the records read: the first record
    gives the field names, the blank records after it are skipped. *)
Definition dicts (records : list (list string)) : list contact :=
  match records with
  | [] => []
  | fieldnames :: body =>
      map (row_to_dict fieldnames) (filter (fun r => negb (is_blank r)) body)
  end.

(** [list(csv.DictReader(f))] *)
Definition dict_reader (rows : list (list string)) : exn + list contact :=
  rbind (reader rows) (fun records => inr (dicts records)).

(** [rowdict.keys() - fieldnames], each key as [repr] shows it: a set, whose
    elements come out in the order of the runtime. *)
Definition wrong_fields {rt : Runtime} (fieldnames : list string) (c : contact)
  : list string :=
  set_order
    (map repr
         (filter (fun k => negb (existsb (String.eqb k) fieldnames))
                 (map fst (items c)))
     ++ match extra c with Some _ => ["None"] | None => [] end)%list.

(** What the writer puts in a cell: [rowdict.get(key, "")], [None] written
    as the empty text. *)
Definition cell (c : contact) (key : string) : string :=
  match dict_get key (items c) with
  | Some (Some s) => s
  | Some None => ""
  | None => ""
  end.

(** [DictWriter._dict_to_list] *)
Definition dict_to_list {rt : Runtime} (fieldnames : list string) (c : contact)
  : exn + list string :=
  match wrong_fields fieldnames c with
  | [] => inr (map (cell c) fieldnames)
  | wf => inl (ValueError ("dict contains fields not in fieldnames: "
                           ++ join ", " wf))
  end.

(** [open(CSV_FILE, "w")] *)
Definition truncate : M unit := fun w => Ok tt (set_csv (Some []) w).

(** [writer.writerow(row)] on the open file. *)
Definition writerow (row : list string) : M unit :=
  fun w =>
    let old := match csv_file w with Some rows => rows | None => [] end in
    Ok tt (set_csv (Some (old ++ [row])%list) w).

(** [DictWriter.writeheader] *)
Definition writeheader (fieldnames : list string) : M unit :=
  writerow fieldnames.

(** [DictWriter.writerows]: the dicts are converted one at a time, so the
    records before an offending dict are already in the file when
    [ValueError] is raised. *)
Fixpoint writerows {rt : Runtime} (fieldnames : list string)
         (cs : list contact) : M unit :=
  match cs with
  | [] => ret tt
  | c :: r =>
      row <- lift (dict_to_list fieldnames c) ;;
      writerow row ;;;
      writerows fieldnames r
  end.

End Csv.

Module Json.

(** The [dict] built from the members of an object. *)
Definition dict_of_pairs {V} (l : list (string * V)) : list (string * V) :=
  fold_left (fun d kv => dict_set (fst kv) (snd kv) d) l [].

(** [c.get(k, default)] on a loaded object. *)
Definition get (k : string) (default : json) (members : list (string * json))
  : json :=
  match dict_get k (dict_of_pairs members) with
  | Some v => v
  | None => default
  end.

(** [repr(v)] *)
Fixpoint py_repr {rt : Runtime} (v : json) : string :=
  match v with
  | JNull => "None"
  | JBool true => "True"
  | JBool false => "False"
  | JInt z => of_Z z
  | JFloat t => t
  | JStr s => repr s
  | JArr l => "[" ++ join ", " (map py_repr l) ++ "]"
  | JObj m =>
      "{" ++ join ", "
               (map (fun kv => repr (fst kv) ++ ": " ++ snd kv)
                    (dict_of_pairs
                       (map (fun kv => (fst kv, py_repr (snd kv))) m)))
          ++ "}"
  end.

(** [str(v)] *)
Definition py_str {rt : Runtime} (v : json) : string :=
  match v with
  | JStr s => s
  | _ => py_repr v
  end.

(** [type(v).__name__] *)
Definition type_name (v : json) : string :=
  match v with
  | JNull => "NoneType"
  | JBool _ => "bool"
  | JInt _ => "int"
  | JFloat _ => "float"
  | JStr _ => "str"
  | JArr _ => "list"
  | JObj _ => "dict"
  end.

(** What [json.dump] writes for a contact, as [json.load] reads it back:
    the key [None] becomes the text [null], the value [None] the JSON
    null. *)
Definition of_contact (c : contact) : json :=
  JObj (map (fun kv => (fst kv, match snd kv with
                                | Some s => JStr s
                                | None => JNull
                                end)) (items c)
        ++ match extra c with
           | Some l => [("null", JArr (map JStr l))]
           | None => []
           end)%list.

(** [json.dump(contacts, f, indent=2)] into a freshly opened [JSON_FILE]. *)
Definition dump (contacts : list contact) : M unit :=
  fun w => Ok tt (set_json (Some (Document (JArr (map of_contact contacts)))) w).

(** [json.load(f)] *)
Definition load (content : json_content) : M json :=
  match content with
  | Unparseable detail => raise (JSONDecodeError detail)
  | Document v => ret v
  end.

End Json.

(* ================================================================= *)
(** ** The program *)

Section ContactBook.

Context {rt : Runtime}.

(** The line [f"[{ts}] [{level}] {msg}"], without its newline. *)
Definition log_line (ts level msg : string) : string :=
  "[" ++ ts ++ "] [" ++ level ++ "] " ++ msg.

(** [write_log(level, msg)].  The body can fail only through the operating
    system or on text that UTF-8 cannot encode, both of which the model
    leaves out, so the handler is never entered. *)
Definition write_log (level msg : string) : M unit :=
  try_except
    (fun w =>
       let ts := now w in
       Ok tt (set_log (log_file w ++ [log_line ts level msg])%list w))
    (fun _ => ret tt).

(** [ensure_csv_exists()] *)
Definition ensure_csv_exists : M unit :=
  fun w =>
    match csv_file w with
    | None => (Csv.truncate ;;; Csv.writeheader FIELDNAMES) w
    | Some _ => Ok tt w
    end.

(** [read_contacts()] *)
Definition read_contacts : M (list contact) :=
  ensure_csv_exists ;;;
  fun w =>
    match csv_file w with
    | Some rows => lift (Csv.dict_reader rows) w
    | None => Raise (FileNotFoundError CSV_FILE) w
    end.

(** [write_contacts(contacts)] *)
Definition write_contacts (contacts : list contact) : M unit :=
  Csv.truncate ;;;
  Csv.writeheader FIELDNAMES ;;;
  Csv.writerows FIELDNAMES contacts.

(** The literal [{"Name": name, "Phone": phone, "Email": email}]. *)
Definition new_contact (name phone email : string) : contact :=
  {| items := [("Name", Some name); ("Phone", Some phone); ("Email", Some email)];
     extra := None |}.

(** [c[key]] *)
Definition getitem (key : string) (c : contact) : exn + option string :=
  match dict_get key (items c) with
  | Some v => inr v
  | None => inl (KeyError key)
  end.

(** [c["Name"].lower()] *)
Definition name_lower (c : contact) : exn + string :=
  rbind (getitem "Name" c) (fun v =>
    match v with
    | Some s => inr (lower s)
    | None => inl (AttributeError "'NoneType' object has no attribute 'lower'")
    end).

(** [{c[key]}] inside an f-string. *)
Definition fmt_item (key : string) (c : contact) : exn + string :=
  rbind (getitem key c) (fun v =>
    inr match v with Some s => s | None => "None" end).

(** [add_contact()] *)
Definition add_contact : M unit :=
  raw_name <- input "Name: " ;;
  let name := strip raw_name in
  raw_phone <- input "Phone: " ;;
  let phone := strip raw_phone in
  raw_email <- input "Email: " ;;
  let email := strip raw_email in
  if (name =? "") || (phone =? "") || (email =? "") then
    print "All fields are required."
  else
    contacts <- read_contacts ;;
    let contacts := (contacts ++ [new_contact name phone email])%list in
    write_contacts contacts ;;;
    write_log "INFO" ("Added contact: " ++ name) ;;;
    print "Contact added.".

(** [[c for c in contacts if term in c["Name"].lower()]] *)
Fixpoint search_filter (term : string) (contacts : list contact)
  : exn + list contact :=
  match contacts with
  | [] => inr []
  | c :: r =>
      rbind (name_lower c) (fun n =>
      rbind (search_filter term r) (fun found =>
      inr (if contains n term then c :: found else found)))
  end.

(** The text printed for one match. *)
Definition show_contact (c : contact) : exn + string :=
  rbind (fmt_item "Name" c) (fun n =>
  rbind (fmt_item "Phone" c) (fun p =>
  rbind (fmt_item "Email" c) (fun e =>
  inr (nl ++ "Name: " ++ n ++ nl ++ "Phone: " ++ p ++ nl ++ "Email: " ++ e)))).

Fixpoint print_found (found : list contact) : M unit :=
  match found with
  | [] => ret tt
  | c :: r => s <- lift (show_contact c) ;; print s ;;; print_found r
  end.

(** [search_contact()] *)
Definition search_contact : M unit :=
  raw <- input "Enter name to search: " ;;
  let term := lower (strip raw) in
  contacts <- read_contacts ;;
  found <- lift (search_filter term contacts) ;;
  match found with
  | [] => print "No matches."
  | _ => print_found found
  end.

(** The loop of [update_contact]: [seen] are the contacts already passed,
    [rest] those still to visit.  [c] is the dict object held in the list, so
    assigning to [c["Phone"]] changes the list that is written back. *)
Fixpoint update_loop (name : string) (seen rest : list contact) : M unit :=
  match rest with
  | [] => print "Contact not found."
  | c :: r =>
      n <- lift (name_lower c) ;;
      if n =? lower name then
        cur <- lift (fmt_item "Phone" c) ;;
        print ("Current phone: " ++ cur) ;;;
        raw_phone <- input "New phone (leave blank to keep): " ;;
        let new_phone := strip raw_phone in
        let c := if new_phone =? "" then c
                 else set_item "Phone" (Some new_phone) c in
        raw_email <- input "New email (leave blank to keep): " ;;
        let new_email := strip raw_email in
        let c := if new_email =? "" then c
                 else set_item "Email" (Some new_email) c in
        write_contacts (seen ++ c :: r)%list ;;;
        write_log "INFO" ("Updated contact: " ++ name) ;;;
        print "Contact updated."
      else update_loop name (seen ++ [c])%list r
  end.

(** [update_contact()] *)
Definition update_contact : M unit :=
  raw <- input "Enter exact name to update: " ;;
  let name := strip raw in
  contacts <- read_contacts ;;
  update_loop name [] contacts.

(** [[c for c in contacts if c["Name"].lower() != name.lower()]] *)
Fixpoint delete_filter (name : string) (contacts : list contact)
  : exn + list contact :=
  match contacts with
  | [] => inr []
  | c :: r =>
      rbind (name_lower c) (fun n =>
      rbind (delete_filter name r) (fun kept =>
      inr (if negb (n =? lower name) then c :: kept else kept)))
  end.

(** [delete_contact()] *)
Definition delete_contact : M unit :=
  raw <- input "Enter exact name to delete: " ;;
  let name := strip raw in
  contacts <- read_contacts ;;
  new_contacts <- lift (delete_filter name contacts) ;;
  if (length new_contacts =? length contacts)%nat then
    print "Contact not found."
  else
    write_contacts new_contacts ;;;
    write_log "INFO" ("Deleted contact: " ++ name) ;;;
    print "Contact deleted.".

(** [export_json()] *)
Definition export_json : M unit :=
  contacts <- read_contacts ;;
  match contacts with
  | [] => print "No contacts to export."
  | _ =>
      Json.dump contacts ;;;
      write_log "INFO"
        ("Exported " ++ of_nat (length contacts) ++ " contacts to JSON.") ;;;
      print ("Exported " ++ of_nat (length contacts)
             ++ " contacts to " ++ JSON_FILE ++ ".")
  end.

(** The dict [import_json] builds from one element of the array. *)
Definition clean_one (c : json) : exn + contact :=
  match c with
  | JObj members =>
      inr (new_contact (strip (Json.py_str (Json.get "Name" (JStr "") members)))
                       (strip (Json.py_str (Json.get "Phone" (JStr "") members)))
                       (strip (Json.py_str (Json.get "Email" (JStr "") members))))
  | _ => inl (AttributeError ("'" ++ Json.type_name c
                              ++ "' object has no attribute 'get'"))
  end.

(** The loop filling [cleaned]. *)
Fixpoint clean (contacts : list json) : exn + list contact :=
  match contacts with
  | [] => inr []
  | c :: r =>
      rbind (clean_one c) (fun d =>
      rbind (clean r) (fun ds => inr (d :: ds)))
  end.

(** The [try] block of [import_json]. *)
Definition import_json_try (content : json_content) : M unit :=
  contacts <- Json.load content ;;
  match contacts with
  | JArr l =>
      cleaned <- lift (clean l) ;;
      write_contacts cleaned ;;;
      write_log "INFO"
        ("Imported " ++ of_nat (length cleaned) ++ " contacts from JSON.") ;;;
      print ("Imported " ++ of_nat (length cleaned)
             ++ " contacts from " ++ JSON_FILE ++ ".")
  | _ => raise (ValueError "JSON must be a list of objects.")
  end.

(** [import_json()] *)
Definition import_json : M unit :=
  fun w =>
    match json_file w with
    | None => print "JSON file not found." w
    | Some content =>
        try_except (import_json_try content)
          (fun e =>
             print ("Failed to import JSON: " ++ exn_str e) ;;;
             write_log "ERROR" ("Import JSON failed: " ++ exn_str e)) w
    end.

(* ----------------------------------------------------------------- *)
(** *** Listing, the menu and the entry point *)

(** [{c[key][:n]:width}] inside an f-string. *)
Definition column (key : string) (n width : nat) (c : contact) : error + string :=
  match dict_get key (items c) with
  | None => inl (Op (KeyError key))
  | Some None => inl (TypeError "'NoneType' object is not subscriptable")
  | Some (Some s) => inr (ljust width (take_chars n s))
  end.

(** The line [list_contacts] prints for one contact. *)
Definition list_line (c : contact) : error + string :=
  ebind (column "Name" 29 30 c) (fun n =>
  ebind (column "Phone" 19 20 c) (fun p =>
  ebind (column "Email" 29 30 c) (fun e =>
  inr (n ++ " " ++ p ++ " " ++ e)))).

Definition list_header : string :=
  nl ++ ljust 30 "Name" ++ " " ++ ljust 20 "Phone" ++ " " ++ ljust 30 "Email".

Fixpoint print_lines (contacts : list contact) : P unit :=
  match contacts with
  | [] => fun w => Done tt w
  | c :: r =>
      pbind (plift (list_line c)) (fun s =>
      pbind (of_M (print s)) (fun _ => print_lines r))
  end.

(** [list_contacts()] *)
Definition list_contacts : P unit :=
  pbind (of_M read_contacts) (fun contacts =>
  match contacts with
  | [] => of_M (print "No contacts found.")
  | _ =>
      pbind (of_M (print list_header ;;; print (dashes 80))) (fun _ =>
      pbind (print_lines contacts) (fun _ =>
      of_M (print (nl ++ "Total: " ++ of_nat (length contacts)))))
  end).

Definition menu_title : string := nl ++ "Contact Book".
Definition menu_options : string :=
  "1) Add  2) List  3) Search  4) Update  5) Delete  6) Export JSON  7) Import JSON  8) Exit".

(** The branches of [menu] other than the exit. *)
Definition dispatch (choice : string) : P unit :=
  if choice =? "1" then of_M add_contact
  else if choice =? "2" then list_contacts
  else if choice =? "3" then of_M search_contact
  else if choice =? "4" then of_M update_contact
  else if choice =? "5" then of_M delete_contact
  else if choice =? "6" then of_M export_json
  else if choice =? "7" then of_M import_json
  else of_M (print "Invalid choice. Enter a number 1-8.").

(** The loop of [menu], with a bound on the number of turns: [None] is the
    bound reached before the loop ended. *)
Fixpoint menu_loop (turns : nat) (w : world) : option (run unit) :=
  match turns with
  | O => None
  | S n =>
      match of_M (print menu_title ;;; print menu_options ;;;
                  input "Choice: ") w with
      | Crash e w1 => Some (Crash e w1)
      | Done raw w1 =>
          let choice := strip raw in
          if choice =? "8" then
            Some (of_M (print "Goodbye." ;;;
                        write_log "INFO" "Program exited") w1)
          else
            match dispatch choice w1 with
            | Crash e w2 => Some (Crash e w2)
            | Done _ w2 => menu_loop n w2
            end
      end
  end.

(** [menu()]: every turn reads a line, so one turn more than there are lines
    of input is bound enough. *)
Definition menu (w : world) : option (run unit) :=
  menu_loop (S (length (stdin w))) w.

(** The program: what runs under [if __name__ == "__main__"]. *)
Definition main (w : world) : option (run unit) :=
  match of_M (ensure_csv_exists ;;; write_log "INFO" "Program started") w with
  | Crash e w1 => Some (Crash e w1)
  | Done _ w1 => menu w1
  end.

End ContactBook.

(* ================================================================= *)
(** ** The vocabulary of the statements *)

(** A contact of the data model: name, phone and email, all text. *)
Definition entry : Type := (string * string * string)%type.

Definition name_of (c : entry) : string := fst (fst c).
Definition phone_of (c : entry) : string := snd (fst c).
Definition email_of (c : entry) : string := snd c.

(** The dict the program holds for an entry, and its record in the file. *)
Definition contact_of (c : entry) : contact :=
  new_contact (name_of c) (phone_of c) (email_of c).

Definition row_of (c : entry) : list string :=
  [name_of c; phone_of c; email_of c].

(** What [read_contacts] finds: the records of the file, or the header alone
    when the file has yet to be created. *)
Definition store_rows (w : world) : list (list string) :=
  match csv_file w with
  | Some rows => rows
  | None => [FIELDNAMES]
  end.

(** The store holds the contacts [cs]: that is what [read_contacts] returns. *)
Definition stored (w : world) (cs : list entry) : Prop :=
  value_of (read_contacts w) = Some (map contact_of cs).

(** A field that is read back from the store file as it was written: it
    has no carriage return and is within the field limit of the reader. *)
Definition storable (s : string) : Prop :=
  has_char cr s = false /\ Csv.within_limit s = true.

Definition entry_storable (c : entry) : Prop :=
  storable (name_of c) /\ storable (phone_of c) /\ storable (email_of c).

(** A store file every field of which is read as it is written. *)
Definition readable (rows : list (list string)) : Prop :=
  Forall (Forall storable) rows.

(** The store file in the form [write_contacts] gives it: the header record,
    then one record of three fields per contact. *)
Definition well_formed (f : option (list (list string))) : Prop :=
  exists cs : list entry, f = Some (FIELDNAMES :: map row_of cs).

(** A computation that, however it ends, leaves the store file as it found
    it or in that form. *)
Definition keeps_form {A} (m : M A) : Prop :=
  forall w, csv_file (world_of (m w)) = csv_file w \/
            well_formed (csv_file (world_of (m w))).

(** The text [search_contact] prints for one match. *)
Definition show_entry (c : entry) : string :=
  nl ++ "Name: " ++ name_of c ++ nl ++ "Phone: " ++ phone_of c
     ++ nl ++ "Email: " ++ email_of c.

(** The line [list_contacts] prints for an entry. *)
Definition list_entry_line (c : entry) : string :=
  ljust 30 (take_chars 29 (name_of c)) ++ " "
  ++ ljust 20 (take_chars 19 (phone_of c)) ++ " "
  ++ ljust 30 (take_chars 29 (email_of c)).

(** The object [export_json] writes for a contact of three text fields. *)
Definition object_of (c : entry) : json :=
  JObj [("Name", JStr (name_of c)); ("Phone", JStr (phone_of c));
        ("Email", JStr (email_of c))].

(** The field of a record as [export_json] and [import_json] pass it on:
    the text [None] where the record has no such field. *)
Definition field_shown (row : list string) (i : nat) : string :=
  match nth_error row i with
  | Some s => s
  | None => "None"
  end.

(** The field of a record as [write_contacts] writes it back: empty where
    the record has no such field. *)
Definition padded (row : list string) : entry :=
  (nth 0 row "", nth 1 row "", nth 2 row "").

(** A text of [n] times the character [c]. *)
Definition replicate (n : N) (c : ascii) : string :=
  N.iter n (String c) "".

(** A name of three characters in four bytes. *)
Definition zoe : string :=
  String "Z" (String "o" (String (ascii_of_nat 195)
                                 (String (ascii_of_nat 171) ""))).

(** A text with a carriage return inside, and the text it is read back
    as. *)
Definition a_cr_b : string := String "a" (String cr "b").
Definition a_lf_b : string := String "a" (String lf "b").

(** A world for the examples: an empty log, nothing printed yet. *)
Definition demo_world (csv : option (list (list string)))
           (js : option json_content) (lines : list string) : world :=
  {| csv_file := csv; json_file := js; log_file := [];
     stdin := lines; stdout := []; now := "2024-01-01 12:00:00" |}.

Section Vocabulary.

Context {rt : Runtime}.

(** No leading or trailing whitespace; a field is blank when nothing is left
    of it after trimming. *)
Definition trimmed (s : string) : Prop := strip s = s.
Definition blank (s : string) : Prop := strip s = "".

Definition entry_trimmed (c : entry) : Prop :=
  trimmed (name_of c) /\ trimmed (phone_of c) /\ trimmed (email_of c).

Definition entry_no_blank (c : entry) : Prop :=
  ~ blank (name_of c) /\ ~ blank (phone_of c) /\ ~ blank (email_of c).

(** The case-insensitive whole-string comparison of update and delete. *)
Definition same_name (target : string) (c : entry) : bool :=
  lower (name_of c) =? lower target.

(** The substring test of search. *)
Definition name_has (term : string) (c : entry) : bool :=
  contains (lower (name_of c)) term.

(** What an answer of [update_contact] does to a field: a blank one keeps
    the value, another one replaces it with its trimmed text. *)
Definition answer (old raw : string) : string :=
  if strip raw =? "" then old else strip raw.

Definition updated (c : entry) (raw_phone raw_email : string) : entry :=
  (name_of c, answer (phone_of c) raw_phone, answer (email_of c) raw_email).

(** What the import makes of an exported contact: every field trimmed. *)
Definition strip_entry (c : entry) : entry :=
  (strip (name_of c), strip (phone_of c), strip (email_of c)).

(** The contact [import_json] makes of the members of an object. *)
Definition entry_of_members (members : list (string * json)) : entry :=
  (strip (Json.py_str (Json.get "Name" (JStr "") members)),
   strip (Json.py_str (Json.get "Phone" (JStr "") members)),
   strip (Json.py_str (Json.get "Email" (JStr "") members))).

(** The contact that comes back for a record after export and import. *)
Definition reimported (row : list string) : entry :=
  (strip (field_shown row 0), strip (field_shown row 1),
   strip (field_shown row 2)).

(** The round trip through the interchange file, read literally: the list is
    any list without blank fields. *)
Definition roundtrip_as_stated : Prop :=
  forall (w : world) (cs : list entry),
    stored w cs ->
    Forall entry_no_blank cs ->
    forall w1 w2,
      export_json w = Ok tt w1 ->
      import_json w1 = Ok tt w2 ->
      stored w2 cs.

(** Adding a contact, read literally: any three fields that are not blank
    are read back, trimmed, after the contacts the store held. *)
Definition add_as_stated : Prop :=
  forall (w : world) (cs : list entry) (name phone email : string)
         (more : list string),
    stored w cs ->
    stdin w = name :: phone :: email :: more ->
    ~ blank name -> ~ blank phone -> ~ blank email ->
    exists w',
      add_contact w = Ok tt w' /\
      stored w' (cs ++ [(strip name, strip phone, strip email)]).

(** Updating the email, read literally: any answer that is not blank is
    read back, trimmed, as the email of the first match. *)
Definition update_as_stated : Prop :=
  forall (w : world) (pre post : list entry) (c : entry)
         (raw raw_phone raw_email : string) (more : list string),
    stored w (pre ++ c :: post) ->
    stdin w = raw :: raw_phone :: raw_email :: more ->
    Forall (fun x => same_name (strip raw) x = false) pre ->
    same_name (strip raw) c = true ->
    blank raw_phone ->
    ~ blank raw_email ->
    exists w',
      update_contact w = Ok tt w' /\
      stored w' (pre ++ (name_of c, phone_of c, strip raw_email) :: post).

End Vocabulary.

(* ================================================================= *)
(** ** The runtime on ASCII text *)

Module AsciiLaws.
Import AsciiText.

Lemma rstrip_idem (s : string) : rstrip (rstrip s) = rstrip s.
Proof.
  induction s as [|c s IH]; [reflexivity|].
  cbn [rstrip]. destruct (rstrip s) as [|d r] eqn:E.
  - destruct (is_space c) eqn:Ec; [reflexivity|].
    cbn [rstrip]. now rewrite Ec.
  - cbn [rstrip]. cbn [rstrip] in IH. rewrite IH. reflexivity.
Qed.

Lemma rstrip_head (c : ascii) (s : string) :
  is_space c = false -> exists r, rstrip (String c s) = String c r.
Proof.
  intros Hc. cbn [rstrip]. destruct (rstrip s) as [|d r].
  - rewrite Hc. now eexists.
  - now eexists.
Qed.

Lemma lstrip_head (s : string) :
  lstrip s = "" \/ exists c r, lstrip s = String c r /\ is_space c = false.
Proof.
  induction s as [|c s IH]; [now left|].
  cbn [lstrip]. destruct (is_space c) eqn:Ec; [exact IH|].
  right. now exists c, s.
Qed.

Lemma strip_idem (s : string) : strip (strip s) = strip s.
Proof.
  unfold strip. destruct (lstrip_head s) as [E|[c [r [E Hc]]]].
  - rewrite E. reflexivity.
  - rewrite E. destruct (@rstrip_head c r Hc) as [r' Hr]. rewrite Hr.
    cbn [lstrip]. rewrite Hc, <- Hr. apply rstrip_idem.
Qed.

End AsciiLaws.

#[global] Instance ascii_runtime : Runtime := {|
  strip := AsciiText.strip;
  lower := AsciiText.lower;
  repr := AsciiText.repr;
  set_order := fun l => l;
  strip_empty := eq_refl;
  strip_strip := AsciiLaws.strip_idem;
  lower_empty := eq_refl;
  set_order_perm := @Permutation_refl string
|}.

(* ================================================================= *)
(** ** The model on small inputs *)

Example strip_inner_space : strip "  Ann Lee  " = "Ann Lee".
Proof. reflexivity. Qed.

Example strip_all_space : strip "   " = "".
Proof. reflexivity. Qed.

Example lower_mixed : lower "Bob O'Neil-42" = "bob o'neil-42".
Proof. reflexivity. Qed.

Example contains_middle : contains "joanna" "ann" = true.
Proof. reflexivity. Qed.

Example contains_gap : contains "joanna" "jan" = false.
Proof. reflexivity. Qed.

(** Characters, not bytes, are counted and cut: [Zoë] has three characters
    in four bytes. *)
Example char_length_two_bytes :
  char_length zoe = 3 /\ String.length zoe = 4 /\
  take_chars 3 zoe = zoe /\
  take_chars 2 zoe = "Zo" /\
  ljust 5 zoe = zoe ++ "  ".
Proof. repeat split. Qed.

(** A carriage return in a field is read back as a line feed. *)
Example universal_line_ends :
  Csv.universal ("a" ++ String cr "b" ++ String cr (String lf "c") ++ String lf "d")
  = "a" ++ String lf "b" ++ String lf "c" ++ String lf "d".
Proof. reflexivity. Qed.

(** A short record is filled with [None], a long one keeps its surplus
    under the key [None], a blank line is skipped. *)
Example dict_reader_ragged :
  Csv.dict_reader [FIELDNAMES; ["Ann"; "1"]; []; ["Bob"; "2"; "b@x"; "more"]]
  = inr [ {| items := [("Name", Some "Ann"); ("Phone", Some "1"); ("Email", None)];
             extra := None |};
          {| items := [("Name", Some "Bob"); ("Phone", Some "2");
                       ("Email", Some "b@x")];
             extra := Some ["more"] |} ].
Proof. reflexivity. Qed.

(** [write_contacts] writes [None] as an empty cell, and raises on a dict
    with a surplus key after the records before it are in the file. *)
Example write_contacts_ragged :
  write_contacts
    (Csv.dicts [FIELDNAMES; ["Ann"; "1"]; ["Bob"; "2"; "b@x"; "more"];
                ["Cy"; "3"; "c@x"]])
    (demo_world None None [])
  = Raise (ValueError "dict contains fields not in fieldnames: None")
          (demo_world (Some [FIELDNAMES; ["Ann"; "1"; ""]]) None []).
Proof. reflexivity. Qed.

(** An element of the array that is no object stops the import; a missing
    key reads as empty text, a number as its decimal text, null as [None]. *)
Example import_json_bad_element :
  let doc := Document (JArr [JObj [("Name", JStr "Ann")]; JInt 3]) in
  let w := demo_world (Some [FIELDNAMES; ["Bob"; "2"; "b@x"]]) (Some doc) [] in
  import_json w
  = Ok tt (set_log [log_line (now w) "ERROR"
                      "Import JSON failed: 'int' object has no attribute 'get'"]
             (set_stdout
                ["Failed to import JSON: 'int' object has no attribute 'get'"] w)).
Proof. reflexivity. Qed.

Example import_json_coerces :
  let doc := Document (JArr [JObj [("Name", JStr " Ann "); ("Phone", JInt 42);
                                   ("Email", JNull)];
                             JObj [("Phone", JBool true)]]) in
  csv_file (world_of (import_json (demo_world None (Some doc) [])))
  = Some [FIELDNAMES; ["Ann"; "42"; "None"]; [""; "True"; ""]].
Proof. reflexivity. Qed.

(** At the end of the input [input] raises, and the operation with it. *)
Example delete_contact_eof :
  delete_contact (demo_world None None [])
  = Raise EOFError
          (set_stdout ["Enter exact name to delete: "] (demo_world None None [])).
Proof. reflexivity. Qed.

(* ================================================================= *)
(** ** The monad *)

Lemma bind_ok {A B} {m : M A} (k : A -> M B) {w w' : world} {a : A} :
  m w = Ok a w' -> bind m k w = k a w'.
Proof. intros H. unfold bind. now rewrite H. Qed.

Lemma input_line (prompt : string) {w : world} {l : string} {r : list string} :
  stdin w = l :: r ->
  input prompt w = Ok l (set_stdin r (set_stdout (stdout w ++ [prompt])%list w)).
Proof. intros H. unfold input. now rewrite H. Qed.

Lemma set_csv_same (w : world) (f : option (list (list string))) :
  csv_file w = f -> set_csv f w = w.
Proof. intros <-. now destruct w. Qed.

(** One [input] whose line is there. *)
Ltac read_line :=
  erewrite bind_ok by (apply input_line; first [eassumption | reflexivity]).

(** The last steps of a run: the remaining prints and log lines are
    carried out and the two worlds compared. *)
Ltac finish_run :=
  unfold print, write_log, try_except, bind, ret; cbn;
  rewrite <- ?app_assoc; reflexivity.

(* ================================================================= *)
(** ** Dicts *)

Lemma dict_get_set_same {V} (k : string) (v : V) (d : list (string * V)) :
  dict_get k (dict_set k v d) = Some v.
Proof.
  induction d as [|[k' v'] d IH]; cbn.
  - now rewrite String.eqb_refl.
  - destruct (k =? k') eqn:E; cbn; now rewrite ?String.eqb_refl, ?E.
Qed.

Lemma dict_get_set_other {V} (k k' : string) (v : V) (d : list (string * V)) :
  k <> k' -> dict_get k (dict_set k' v d) = dict_get k d.
Proof.
  intros Hk. induction d as [|[k0 v0] d IH]; cbn.
  - now rewrite (proj2 (String.eqb_neq k k') Hk).
  - destruct (k' =? k0) eqn:E; cbn.
    + apply String.eqb_eq in E. subst k0.
      now rewrite (proj2 (String.eqb_neq k k') Hk).
    + now rewrite IH.
Qed.

Lemma fill_restval_keeps_none (keys : list string) (k : string)
      (d : list (string * option string)) :
  dict_get k d = Some None ->
  dict_get k (Csv.fill_restval keys d) = Some None.
Proof.
  revert d. induction keys as [|k' keys IH]; intros d H; [exact H|].
  cbn. apply IH. destruct (String.eqb_spec k k') as [->|Hk].
  - apply dict_get_set_same.
  - now rewrite dict_get_set_other.
Qed.

Lemma fill_restval_none (keys : list string) (k : string)
      (d : list (string * option string)) :
  In k keys -> dict_get k (Csv.fill_restval keys d) = Some None.
Proof.
  revert d. induction keys as [|k' keys IH]; intros d; [intros []|].
  intros [->|Hin]; cbn.
  - apply fill_restval_keeps_none, dict_get_set_same.
  - now apply IH.
Qed.

(** The text in a dict made of a record is a field of the record. *)
Lemma zip_dict_value (ks xs : list string) (d : list (string * option string))
      (k v : string) :
  dict_get k (Csv.zip_dict ks xs d) = Some (Some v) ->
  In v xs \/ dict_get k d = Some (Some v).
Proof.
  revert xs d. induction ks as [|k0 ks IH]; intros [|x xs] d H; cbn in H; auto.
  destruct (IH _ _ H) as [Hin|Hd]; [left; now right|].
  destruct (String.eqb_spec k k0) as [->|Hk].
  - rewrite dict_get_set_same in Hd. injection Hd as <-. left. now left.
  - rewrite dict_get_set_other in Hd by exact Hk. now right.
Qed.

Lemma fill_restval_value (keys : list string) (d : list (string * option string))
      (k v : string) :
  dict_get k (Csv.fill_restval keys d) = Some (Some v) ->
  dict_get k d = Some (Some v).
Proof.
  revert d. induction keys as [|k0 keys IH]; intros d H; [exact H|].
  cbn in H. apply IH in H.
  destruct (String.eqb_spec k k0) as [->|Hk].
  - rewrite dict_get_set_same in H. discriminate.
  - now rewrite dict_get_set_other in H.
Qed.

Lemma row_to_dict_value (fieldnames row : list string) (k v : string) :
  dict_get k (items (Csv.row_to_dict fieldnames row)) = Some (Some v) ->
  In v row.
Proof.
  unfold Csv.row_to_dict.
  destruct (length fieldnames <? length row)%nat;
    [|destruct (length row <? length fieldnames)%nat]; cbn [items]; intros H.
  - apply zip_dict_value in H. destruct H as [H|H]; [exact H | discriminate].
  - apply fill_restval_value, zip_dict_value in H.
    destruct H as [H|H]; [exact H | discriminate].
  - apply zip_dict_value in H. destruct H as [H|H]; [exact H | discriminate].
Qed.

(* ================================================================= *)
(** ** Line ends and the field limit *)

Lemma universal_no_cr (s : string) : has_char cr (Csv.universal s) = false.
Proof.
  induction s as [|c s IH]; [reflexivity|].
  cbn [Csv.universal]. destruct (Ascii.eqb c cr) eqn:Ec.
  - destruct s as [|d s]; [reflexivity|].
    destruct (Ascii.eqb d lf); [exact IH|].
    cbn [has_char]. now rewrite IH.
  - cbn [has_char]. rewrite IH, Ascii.eqb_sym, Ec. reflexivity.
Qed.

Lemma universal_id (s : string) :
  has_char cr s = false -> Csv.universal s = s.
Proof.
  induction s as [|c s IH]; [reflexivity|].
  cbn [has_char Csv.universal]. rewrite (Ascii.eqb_sym c cr).
  intros H. apply orb_false_iff in H. destruct H as [Hc Hs].
  now rewrite Hc, IH.
Qed.

Lemma storable_universal (s : string) : storable s -> Csv.universal s = s.
Proof. intros [H _]. now apply universal_id. Qed.

Lemma readable_universal (rows : list (list string)) :
  readable rows -> map (map Csv.universal) rows = rows.
Proof.
  induction 1 as [|row rows Hrow _ IH]; [reflexivity|].
  cbn [map]. rewrite IH. f_equal.
  induction Hrow as [|s row Hs _ IHrow]; [reflexivity|].
  cbn [map]. now rewrite IHrow, (storable_universal Hs).
Qed.

Lemma readable_within_limit (rows : list (list string)) :
  readable rows -> forallb (forallb Csv.within_limit) rows = true.
Proof.
  intros H. apply forallb_forall. intros row Hrow. apply forallb_forall.
  intros s Hs. unfold readable in H. rewrite Forall_forall in H.
  specialize (H row Hrow). rewrite Forall_forall in H. now destruct (H s Hs).
Qed.

Lemma reader_readable (rows : list (list string)) :
  readable rows -> Csv.reader rows = inr rows.
Proof.
  intros H. unfold Csv.reader.
  now rewrite (readable_universal H), (readable_within_limit H).
Qed.

Lemma dict_reader_readable (rows : list (list string)) :
  readable rows -> Csv.dict_reader rows = inr (Csv.dicts rows).
Proof. intros H. unfold Csv.dict_reader. now rewrite (reader_readable H). Qed.

(** What the reader returns can be read again. *)
Lemma reader_inr (rows records : list (list string)) :
  Csv.reader rows = inr records -> readable records.
Proof.
  unfold Csv.reader.
  destruct (forallb _ _) eqn:E; [|discriminate]. intros [= <-].
  apply Forall_forall. intros row Hrow. apply Forall_forall. intros s Hs.
  rewrite forallb_forall in E. specialize (E row Hrow).
  rewrite forallb_forall in E. specialize (E s Hs).
  split; [|exact E].
  apply in_map_iff in Hrow. destruct Hrow as [row0 [<- _]].
  apply in_map_iff in Hs. destruct Hs as [s0 [<- _]].
  apply universal_no_cr.
Qed.

(* ================================================================= *)
(** ** Reading the store *)

Lemma ensure_csv_exists_eq (w : world) :
  ensure_csv_exists w = Ok tt (set_csv (Some (store_rows w)) w).
Proof.
  unfold ensure_csv_exists, store_rows.
  destruct (csv_file w) eqn:E.
  - now rewrite set_csv_same.
  - reflexivity.
Qed.

Lemma read_contacts_eq (w : world) :
  read_contacts w
  = lift (Csv.dict_reader (store_rows w)) (set_csv (Some (store_rows w)) w).
Proof.
  unfold read_contacts.
  rewrite (bind_ok _ (ensure_csv_exists_eq w)). reflexivity.
Qed.

Lemma stored_iff (w : world) (cs : list entry) :
  stored w cs <-> Csv.dict_reader (store_rows w) = inr (map contact_of cs).
Proof.
  unfold stored. rewrite read_contacts_eq. unfold lift.
  destruct (Csv.dict_reader (store_rows w)) as [e|l]; cbn.
  - split; discriminate.
  - split; [now intros [= ->] | now intros [= ->]].
Qed.

Lemma read_contacts_value (w : world) (cs : list entry) :
  stored w cs ->
  read_contacts w = Ok (map contact_of cs) (set_csv (Some (store_rows w)) w).
Proof.
  intros H. apply stored_iff in H. now rewrite read_contacts_eq, H.
Qed.

Lemma read_contacts_readable (w : world) :
  readable (store_rows w) ->
  read_contacts w
  = Ok (Csv.dicts (store_rows w)) (set_csv (Some (store_rows w)) w).
Proof.
  intros H. now rewrite read_contacts_eq, (dict_reader_readable H).
Qed.

(** The store reads the same in a world with the same records. *)
Lemma stored_same_rows (w w1 : world) (cs : list entry) :
  stored w cs -> store_rows w1 = store_rows w -> stored w1 cs.
Proof.
  intros H E. apply stored_iff. apply stored_iff in H. now rewrite E.
Qed.

(** Reading the contacts of a store that holds [cs], after some lines of
    input were taken. *)
Ltac read_store H :=
  erewrite bind_ok
    by (apply read_contacts_value; eapply stored_same_rows;
        [exact H | reflexivity]).

(** Reading the contacts of a store file that is read as written. *)
Ltac read_rows Hfile Hread :=
  erewrite bind_ok
    by (apply read_contacts_readable; unfold store_rows;
        cbn [csv_file set_csv set_stdin set_stdout]; rewrite Hfile;
        exact Hread).

Lemma row_to_dict_row_of (c : entry) :
  Csv.row_to_dict FIELDNAMES (row_of c) = contact_of c.
Proof. reflexivity. Qed.

Lemma dicts_rows (cs : list entry) :
  Csv.dicts (FIELDNAMES :: map row_of cs) = map contact_of cs.
Proof.
  cbn [Csv.dicts].
  induction cs as [|c cs IH]; [reflexivity|].
  cbn [map filter Csv.is_blank row_of negb].
  now rewrite IH, row_to_dict_row_of.
Qed.

Lemma storable_fieldnames : Forall storable FIELDNAMES.
Proof. repeat constructor. Qed.

Lemma readable_rows (cs : list entry) :
  Forall entry_storable cs -> readable (FIELDNAMES :: map row_of cs).
Proof.
  intros H. constructor; [exact storable_fieldnames|].
  apply Forall_forall. intros row Hrow.
  apply in_map_iff in Hrow. destruct Hrow as [c [<- Hc]].
  rewrite Forall_forall in H. destruct (H c Hc) as [Hn [Hp He]].
  unfold row_of. repeat (constructor; [assumption|]). constructor.
Qed.

Lemma dict_reader_rows (cs : list entry) :
  Forall entry_storable cs ->
  Csv.dict_reader (FIELDNAMES :: map row_of cs) = inr (map contact_of cs).
Proof.
  intros H. now rewrite (dict_reader_readable (readable_rows H)), dicts_rows.
Qed.

Lemma stored_rows (w : world) (cs : list entry) :
  csv_file w = Some (FIELDNAMES :: map row_of cs) ->
  Forall entry_storable cs ->
  stored w cs.
Proof.
  intros H Hcs. apply stored_iff. unfold store_rows. rewrite H.
  now apply dict_reader_rows.
Qed.

Lemma dicts_value (records : list (list string)) (c : entry) (k v : string) :
  readable records ->
  In (contact_of c) (Csv.dicts records) ->
  dict_get k (items (contact_of c)) = Some (Some v) ->
  storable v.
Proof.
  intros Hr Hin Hget. destruct records as [|fieldnames body]; [destruct Hin|].
  cbn [Csv.dicts] in Hin. apply in_map_iff in Hin.
  destruct Hin as [row [Hrow Hbody]]. apply filter_In in Hbody.
  destruct Hbody as [Hbody _].
  rewrite <- Hrow in Hget. apply row_to_dict_value in Hget.
  unfold readable in Hr. rewrite Forall_forall in Hr.
  specialize (Hr row (or_intror Hbody)). rewrite Forall_forall in Hr.
  now apply Hr.
Qed.

(** What the store holds was read back, so it is read back again. *)
Lemma stored_storable (w : world) (cs : list entry) :
  stored w cs -> Forall entry_storable cs.
Proof.
  intros H. apply stored_iff in H. unfold Csv.dict_reader in H.
  destruct (Csv.reader (store_rows w)) as [e|records] eqn:E; [discriminate|].
  cbn [rbind] in H. injection H as H.
  apply reader_inr in E.
  apply Forall_forall. intros c Hc.
  assert (Hin : In (contact_of c) (Csv.dicts records))
    by (rewrite H; now apply in_map).
  repeat split;
    first [ exact (proj1 (@dicts_value records c "Name" _ E Hin eq_refl))
          | exact (proj2 (@dicts_value records c "Name" _ E Hin eq_refl))
          | exact (proj1 (@dicts_value records c "Phone" _ E Hin eq_refl))
          | exact (proj2 (@dicts_value records c "Phone" _ E Hin eq_refl))
          | exact (proj1 (@dicts_value records c "Email" _ E Hin eq_refl))
          | exact (proj2 (@dicts_value records c "Email" _ E Hin eq_refl)) ].
Qed.

Lemma Forall_filter {A} (Q : A -> Prop) (f : A -> bool) (l : list A) :
  Forall Q l -> Forall Q (filter f l).
Proof.
  intros H. apply Forall_forall. intros x Hx. apply filter_In in Hx.
  rewrite Forall_forall in H. now apply H.
Qed.

(* ================================================================= *)
(** ** Lists and substrings *)

Lemma prefix_iff (t s : string) :
  prefix t s = true <-> exists post, s = t ++ post.
Proof.
  revert s. induction t as [|a t IH]; intros s.
  - split; [intros _; now exists s | now destruct s].
  - destruct s as [|b s]; cbn.
    + split; [discriminate | now intros [post H]].
    + destruct (ascii_dec a b) as [->|Hab].
      * rewrite IH. split; intros [post H]; exists post.
        -- now rewrite H.
        -- now injection H.
      * split; [discriminate|]. intros [post H]. cbn in H. congruence.
Qed.

Lemma contains_iff (s t : string) :
  contains s t = true <-> exists pre post, s = pre ++ t ++ post.
Proof.
  induction s as [|a s IH].
  - cbn [contains]. rewrite orb_false_r, prefix_iff. split.
    + intros [post H]. now exists "", post.
    + intros [pre [post H]]. destruct pre; [exists post; exact H | discriminate].
  - cbn [contains]. rewrite orb_true_iff, prefix_iff, IH. split.
    + intros [[post H]|[pre [post H]]].
      * now exists "", post.
      * exists (String a pre), post. cbn. now rewrite H.
    + intros [pre [post H]]. destruct pre as [|b pre].
      * left. exists post. exact H.
      * right. exists pre, post. cbn in H. now injection H.
Qed.

Lemma contains_empty (s : string) : contains s "" = true.
Proof. apply contains_iff. now exists "", s. Qed.

Lemma eqb_nonempty (s : string) : s <> "" -> (s =? "") = false.
Proof. apply String.eqb_neq. Qed.

Lemma filter_all {A} (f : A -> bool) (l : list A) :
  (forall x, f x = true) -> filter f l = l.
Proof.
  intros H. induction l as [|x l IH]; [reflexivity|].
  cbn. now rewrite H, IH.
Qed.

Lemma filter_keeps_all {A} (f : A -> bool) (l : list A) :
  (forall x, In x l -> f x = true) -> filter f l = l.
Proof.
  intros H. apply forallb_filter_id, forallb_forall, H.
Qed.

Lemma filter_shorter {A} (f : A -> bool) (l : list A) :
  (exists x, In x l /\ f x = false) ->
  (length (filter f l) =? length l)%nat = false.
Proof.
  intros [x [Hin Hx]]. apply Nat.eqb_neq. intros E.
  apply filter_length_forallb in E.
  rewrite forallb_forall in E. specialize (E x Hin). congruence.
Qed.

Lemma first_match_split {A} (f : A -> bool) (l : list A) :
  (exists x, In x l /\ f x = true) ->
  exists pre x post,
    l = (pre ++ x :: post)%list /\
    Forall (fun y => f y = false) pre /\ f x = true.
Proof.
  induction l as [|a l IH]; intros [x [Hin Hx]]; [destruct Hin|].
  destruct (f a) eqn:Ea.
  - now exists [], a, l.
  - destruct Hin as [->|Hin]; [congruence|].
    destruct IH as [pre [y [post [-> [Hpre Hy]]]]]; [now exists x|].
    exists (a :: pre), y, post. repeat split; auto.
Qed.

Lemma filter_snoc_true {A} (f : A -> bool) (l : list A) (x : A) :
  f x = true -> filter f (l ++ [x]) = (filter f l ++ [x])%list.
Proof. intros H. rewrite filter_app. cbn. now rewrite H. Qed.

Lemma filter_snoc_false {A} (f : A -> bool) (l : list A) (x : A) :
  f x = false -> filter f (l ++ [x]) = filter f l.
Proof. intros H. rewrite filter_app. cbn. rewrite H. apply app_nil_r. Qed.

Lemma existsb_pointwise {A} (f g : A -> bool) (l : list A) :
  (forall x, f x = g x) -> existsb f l = existsb g l.
Proof.
  intros H. induction l as [|x l IH]; [reflexivity|]. cbn. now rewrite H, IH.
Qed.

Lemma existsb_filter_negb {A} (f : A -> bool) (l : list A) :
  existsb f (filter (fun x => negb (f x)) l) = false.
Proof.
  induction l as [|x l IH]; [reflexivity|].
  cbn. destruct (f x) eqn:E; cbn; [exact IH | now rewrite E].
Qed.

Lemma existsb_none {A} (f : A -> bool) (l : list A) (x : A) :
  existsb f l = false -> In x l -> f x = false.
Proof.
  intros H Hx. destruct (f x) eqn:E; [|reflexivity].
  assert (existsb f l = true) by (apply existsb_exists; now exists x).
  congruence.
Qed.

(* ================================================================= *)
(** ** Writing the store *)

Section Writing.

Context {rt : Runtime}.

Lemma set_order_nil : set_order [] = [].
Proof. apply Permutation_nil, Permutation_sym, set_order_perm. Qed.

Lemma set_order_one (x : string) : set_order [x] = [x].
Proof. apply Permutation_length_1_inv, Permutation_sym, set_order_perm. Qed.

Lemma dict_to_list_contact_of (c : entry) :
  Csv.dict_to_list FIELDNAMES (contact_of c) = inr (row_of c).
Proof.
  unfold Csv.dict_to_list, Csv.wrong_fields. cbn. now rewrite set_order_nil.
Qed.

Lemma writerows_entries (cs : list entry) (w : world) (rows : list (list string)) :
  csv_file w = Some rows ->
  Csv.writerows FIELDNAMES (map contact_of cs) w
  = Ok tt (set_csv (Some (rows ++ map row_of cs)%list) w).
Proof.
  revert w rows. induction cs as [|c cs IH]; intros w rows H.
  - cbn. rewrite app_nil_r. now rewrite set_csv_same.
  - cbn [map Csv.writerows]. unfold bind at 1, lift.
    rewrite dict_to_list_contact_of.
    unfold bind at 1, Csv.writerow. rewrite H.
    rewrite (IH _ (rows ++ [row_of c])%list) by reflexivity.
    cbn. now rewrite <- app_assoc.
Qed.

Lemma write_contacts_entries (cs : list entry) (w : world) :
  write_contacts (map contact_of cs) w
  = Ok tt (set_csv (Some (FIELDNAMES :: map row_of cs)) w).
Proof.
  unfold write_contacts, bind at 1, Csv.truncate.
  unfold bind at 1, Csv.writeheader, Csv.writerow. cbn [csv_file set_csv].
  rewrite (writerows_entries cs _ (rows := [FIELDNAMES])) by reflexivity.
  reflexivity.
Qed.

(* ----------------------------------------------------------------- *)
(** *** The pure fragment on contacts of three text fields *)

Lemma name_lower_contact_of (c : entry) :
  name_lower (contact_of c) = inr (lower (name_of c)).
Proof. reflexivity. Qed.

Lemma show_contact_of (c : entry) :
  show_contact (contact_of c) = inr (show_entry c).
Proof. reflexivity. Qed.

Lemma search_filter_entries (term : string) (cs : list entry) :
  search_filter term (map contact_of cs)
  = inr (map contact_of (filter (name_has term) cs)).
Proof.
  induction cs as [|c cs IH]; [reflexivity|].
  cbn [map search_filter filter]. rewrite name_lower_contact_of, IH.
  cbn [rbind].
  change (name_has term c) with (contains (lower (name_of c)) term).
  now destruct (contains _ _).
Qed.

Lemma delete_filter_entries (name : string) (cs : list entry) :
  delete_filter name (map contact_of cs)
  = inr (map contact_of (filter (fun c => negb (same_name name c)) cs)).
Proof.
  induction cs as [|c cs IH]; [reflexivity|].
  cbn [map delete_filter filter]. rewrite name_lower_contact_of, IH.
  cbn [rbind].
  change (same_name name c) with (lower (name_of c) =? lower name).
  now destruct (_ =? _).
Qed.

Lemma same_name_iff (target : string) (c : entry) :
  same_name target c = true <-> lower (name_of c) = lower target.
Proof. apply String.eqb_eq. Qed.

Lemma same_name_false (target : string) (c : entry) :
  same_name target c = false <-> lower (name_of c) <> lower target.
Proof. apply String.eqb_neq. Qed.

Lemma same_name_lower (t t' : string) (c : entry) :
  lower t' = lower t -> same_name t' c = same_name t c.
Proof. intros H. unfold same_name. now rewrite H. Qed.

Lemma print_found_entries (l : list entry) (w : world) :
  print_found (map contact_of l) w
  = Ok tt (set_stdout (stdout w ++ map show_entry l)%list w).
Proof.
  revert w. induction l as [|c l IH]; intros w.
  - cbn. rewrite app_nil_r. now destruct w.
  - cbn [map print_found]. unfold bind at 1, lift.
    rewrite show_contact_of. unfold bind at 1, print.
    rewrite IH. cbn. now rewrite <- app_assoc.
Qed.

(* ----------------------------------------------------------------- *)
(** *** The operations as equations *)

Lemma add_contact_run
      (w : world) (cs : list entry) (name phone email : string)
      (more : list string) :
  stored w cs ->
  stdin w = name :: phone :: email :: more ->
  ~ blank name -> ~ blank phone -> ~ blank email ->
  add_contact w
  = Ok tt
      {| csv_file := Some (FIELDNAMES ::
                           map row_of (cs ++ [(strip name, strip phone,
                                               strip email)]));
         json_file := json_file w;
         log_file := (log_file w
                      ++ [log_line (now w) "INFO"
                                   ("Added contact: " ++ strip name)])%list;
         stdin := more;
         stdout := (stdout w ++ ["Name: "; "Phone: "; "Email: ";
                                 "Contact added."])%list;
         now := now w |}.
Proof.
  intros Hst Hin Hn Hp He. unfold add_contact.
  do 3 read_line.
  rewrite (eqb_nonempty Hn), (eqb_nonempty Hp), (eqb_nonempty He).
  cbn [orb].
  read_store Hst.
  change (map contact_of cs
          ++ [new_contact (strip name) (strip phone) (strip email)])%list
    with (map contact_of cs
          ++ map contact_of [(strip name, strip phone, strip email)])%list.
  rewrite <- map_app.
  rewrite (bind_ok _ (write_contacts_entries _ _)).
  finish_run.
Qed.

Lemma search_contact_run
      (w : world) (cs : list entry) (raw : string) (more : list string) :
  stored w cs ->
  stdin w = raw :: more ->
  search_contact w
  = Ok tt
      {| csv_file := Some (store_rows w);
         json_file := json_file w;
         log_file := log_file w;
         stdin := more;
         stdout := (stdout w ++ "Enter name to search: " ::
                    match filter (name_has (lower (strip raw))) cs with
                    | [] => ["No matches."]
                    | found => map show_entry found
                    end)%list;
         now := now w |}.
Proof.
  intros Hst Hin. unfold search_contact.
  read_line. read_store Hst.
  unfold bind at 1, lift. rewrite search_filter_entries.
  destruct (filter (name_has (lower (strip raw))) cs) as [|c l].
  - finish_run.
  - cbn [map].
    change (contact_of c :: map contact_of l) with (map contact_of (c :: l)).
    rewrite print_found_entries. finish_run.
Qed.

Lemma delete_contact_run
      (w : world) (cs : list entry) (raw : string) (more : list string) :
  stored w cs ->
  stdin w = raw :: more ->
  delete_contact w
  = Ok tt
      (if existsb (same_name (strip raw)) cs then
         {| csv_file := Some (FIELDNAMES ::
                              map row_of
                                  (filter (fun c => negb (same_name (strip raw) c))
                                          cs));
            json_file := json_file w;
            log_file := (log_file w
                         ++ [log_line (now w) "INFO"
                                      ("Deleted contact: " ++ strip raw)])%list;
            stdin := more;
            stdout := (stdout w ++ ["Enter exact name to delete: ";
                                    "Contact deleted."])%list;
            now := now w |}
       else
         {| csv_file := Some (store_rows w);
            json_file := json_file w;
            log_file := log_file w;
            stdin := more;
            stdout := (stdout w ++ ["Enter exact name to delete: ";
                                    "Contact not found."])%list;
            now := now w |}).
Proof.
  intros Hst Hin. unfold delete_contact.
  read_line. read_store Hst.
  unfold bind at 1, lift. rewrite delete_filter_entries.
  rewrite !length_map.
  destruct (existsb (same_name (strip raw)) cs) eqn:Ex.
  - apply existsb_exists in Ex. destruct Ex as [c [Hc1 Hc2]].
    rewrite filter_shorter by (exists c; split; [exact Hc1 | now rewrite Hc2]).
    rewrite (bind_ok _ (write_contacts_entries _ _)).
    finish_run.
  - rewrite filter_keeps_all.
    + rewrite Nat.eqb_refl. finish_run.
    + intros c Hc. now rewrite (existsb_none _ _ _ Ex Hc).
Qed.

(** The contacts before the first match are passed over. *)
Lemma update_loop_skip (name : string) (pre : list entry)
      (seen rest : list contact) (w : world) :
  Forall (fun c => same_name name c = false) pre ->
  update_loop name seen (map contact_of pre ++ rest)%list w
  = update_loop name (seen ++ map contact_of pre)%list rest w.
Proof.
  revert seen. induction pre as [|c pre IH]; intros seen H.
  - cbn. now rewrite app_nil_r.
  - inversion H as [|? ? Hc Hpre]; subst.
    cbn [map app update_loop]. unfold bind at 1, lift.
    rewrite name_lower_contact_of.
    change (lower (name_of c) =? lower name) with (same_name name c).
    rewrite Hc, IH by assumption. now rewrite <- app_assoc.
Qed.

Lemma update_loop_miss (name : string) (cs : list entry) (seen : list contact)
      (w : world) :
  Forall (fun c => same_name name c = false) cs ->
  update_loop name seen (map contact_of cs) w = print "Contact not found." w.
Proof.
  intros H.
  rewrite <- (app_nil_r (map contact_of cs)).
  rewrite (@update_loop_skip name cs seen [] w H). reflexivity.
Qed.

Lemma update_loop_run (name : string) (pre : list entry) (c : entry)
      (post : list entry) (raw_phone raw_email : string) (more : list string)
      (w : world) :
  same_name name c = true ->
  stdin w = raw_phone :: raw_email :: more ->
  update_loop name (map contact_of pre) (map contact_of (c :: post)) w
  = Ok tt
      {| csv_file := Some (FIELDNAMES ::
                           map row_of (pre ++ updated c raw_phone raw_email
                                           :: post));
         json_file := json_file w;
         log_file := (log_file w
                      ++ [log_line (now w) "INFO"
                                   ("Updated contact: " ++ name)])%list;
         stdin := more;
         stdout := (stdout w ++ [("Current phone: " ++ phone_of c)%string;
                                 "New phone (leave blank to keep): ";
                                 "New email (leave blank to keep): ";
                                 "Contact updated."])%list;
         now := now w |}.
Proof.
  intros Hc Hin. cbn [map update_loop]. unfold bind at 1, lift.
  rewrite name_lower_contact_of.
  change (lower (name_of c) =? lower name) with (same_name name c).
  rewrite Hc. unfold bind at 1, lift.
  change (fmt_item "Phone" (contact_of c)) with (@inr exn _ (phone_of c)).
  cbv iota. unfold bind at 1, print.
  do 2 read_line.
  assert (E : (if strip raw_email =? ""
               then if strip raw_phone =? "" then contact_of c
                    else set_item "Phone" (Some (strip raw_phone)) (contact_of c)
               else set_item "Email" (Some (strip raw_email))
                      (if strip raw_phone =? "" then contact_of c
                       else set_item "Phone" (Some (strip raw_phone))
                                     (contact_of c)))
              = contact_of (updated c raw_phone raw_email)).
  { unfold updated, answer.
    destruct (strip raw_email =? ""), (strip raw_phone =? ""); reflexivity. }
  rewrite E.
  change (map contact_of pre
          ++ contact_of (updated c raw_phone raw_email) :: map contact_of post)%list
    with (map contact_of pre
          ++ map contact_of (updated c raw_phone raw_email :: post))%list.
  rewrite <- map_app.
  rewrite (bind_ok _ (write_contacts_entries _ _)).
  finish_run.
Qed.

Lemma update_contact_run
      (w : world) (pre post : list entry) (c : entry)
      (raw raw_phone raw_email : string) (more : list string) :
  stored w (pre ++ c :: post) ->
  stdin w = raw :: raw_phone :: raw_email :: more ->
  Forall (fun x => same_name (strip raw) x = false) pre ->
  same_name (strip raw) c = true ->
  update_contact w
  = Ok tt
      {| csv_file := Some (FIELDNAMES ::
                           map row_of (pre ++ updated c raw_phone raw_email
                                           :: post));
         json_file := json_file w;
         log_file := (log_file w
                      ++ [log_line (now w) "INFO"
                                   ("Updated contact: " ++ strip raw)])%list;
         stdin := more;
         stdout := (stdout w ++ ["Enter exact name to update: ";
                                 ("Current phone: " ++ phone_of c)%string;
                                 "New phone (leave blank to keep): ";
                                 "New email (leave blank to keep): ";
                                 "Contact updated."])%list;
         now := now w |}.
Proof.
  intros Hst Hin Hpre Hc. unfold update_contact.
  read_line. read_store Hst.
  rewrite map_app.
  rewrite (@update_loop_skip _ pre [] _ _ Hpre).
  cbn [app].
  erewrite update_loop_run by (first [exact Hc | reflexivity]).
  cbn. now rewrite <- !app_assoc.
Qed.

Lemma updated_email_only (c : entry) (raw_phone raw_email : string) :
  blank raw_phone -> ~ blank raw_email ->
  updated c raw_phone raw_email = (name_of c, phone_of c, strip raw_email).
Proof.
  intros Hp He. unfold updated, answer, blank in *.
  now rewrite Hp, (eqb_nonempty He).
Qed.

Lemma entry_storable_app (l1 l2 : list entry) :
  Forall entry_storable l1 -> Forall entry_storable l2 ->
  Forall entry_storable (l1 ++ l2).
Proof. intros H1 H2. apply Forall_app. now split. Qed.

End Writing.

(* ================================================================= *)
(** ** Add, search, update and delete *)

Section Operations.

Context {rt : Runtime}.

(** C2.  When one of the three fields entered is empty after trimming,
    [add_contact] stops at the validation: it returns normally, the store
    file (present or not) is what it was, no line is added to the log, the
    interchange file is untouched, and the only output is the three prompts
    and the message that all fields are required. *)
Theorem add_contact_blank_aborts
        (w : world) (name phone email : string) (more : list string) :
  stdin w = name :: phone :: email :: more ->
  blank name \/ blank phone \/ blank email ->
  exists w',
    add_contact w = Ok tt w' /\
    csv_file w' = csv_file w /\
    log_file w' = log_file w /\
    json_file w' = json_file w /\
    stdout w' = (stdout w ++ ["Name: "; "Phone: "; "Email: ";
                              "All fields are required."])%list.
Proof.
  intros Hin Hblank. unfold add_contact.
  do 3 read_line.
  assert (E : (strip name =? "") || (strip phone =? "") || (strip email =? "")
              = true).
  { unfold blank in Hblank.
    destruct Hblank as [H|[H|H]]; rewrite H; cbn;
      rewrite ?orb_true_r; reflexivity. }
  rewrite E. eexists. split; [reflexivity|]. cbn.
  repeat split. now rewrite <- !app_assoc.
Qed.

(** C3, as the code has it.  With three fields that are non-empty after
    trimming and that the store file gives back as written (no carriage
    return, within the field limit of the reader), and a store holding the
    contacts [cs], [add_contact] returns normally and the store then holds
    [cs] followed by one new contact made of the trimmed values: one contact
    more, the earlier ones unchanged and in their order.  The file is the
    header and one record per contact, and one INFO line is logged. *)
Theorem add_contact_appends
        (w : world) (cs : list entry) (name phone email : string)
        (more : list string) :
  stored w cs ->
  stdin w = name :: phone :: email :: more ->
  ~ blank name -> ~ blank phone -> ~ blank email ->
  storable (strip name) -> storable (strip phone) -> storable (strip email) ->
  let added := (strip name, strip phone, strip email) in
  exists w',
    add_contact w = Ok tt w' /\
    stored w' (cs ++ [added]) /\
    length (cs ++ [added]) = S (length cs) /\
    csv_file w' = Some (FIELDNAMES :: map row_of (cs ++ [added])) /\
    log_file w' = (log_file w
                   ++ [log_line (now w) "INFO"
                                ("Added contact: " ++ strip name)])%list.
Proof.
  intros Hst Hin Hn Hp He Sn Sp Se added.
  rewrite (add_contact_run Hst Hin Hn Hp He).
  eexists. split; [reflexivity|]. cbn [csv_file log_file].
  split; [|split; [|split; reflexivity]].
  - apply stored_rows; [reflexivity|].
    apply entry_storable_app; [exact (stored_storable Hst)|].
    constructor; [exact (conj Sn (conj Sp Se)) | constructor].
  - rewrite length_app. cbn. lia.
Qed.

(** C4.  On a store holding [cs], [search_contact] trims and lowercases the
    term and selects, in the order of the file, exactly the contacts whose
    lowercased name has the term as a contiguous substring; these are what
    it prints (or that there are no matches).  A term that is empty after
    trimming selects every contact.  Nothing is logged or written. *)
Theorem search_contact_finds
        (w : world) (cs : list entry) (raw : string) (more : list string) :
  stored w cs ->
  stdin w = raw :: more ->
  let term := lower (strip raw) in
  let found := filter (name_has term) cs in
  exists w',
    search_contact w = Ok tt w' /\
    search_filter term (map contact_of cs) = inr (map contact_of found) /\
    stdout w' = (stdout w ++ "Enter name to search: " ::
                   match found with
                   | [] => ["No matches."]
                   | _ => map show_entry found
                   end)%list /\
    (forall c, In c found <->
               In c cs /\
               exists pre post, lower (name_of c) = pre ++ term ++ post) /\
    (blank raw -> found = cs) /\
    log_file w' = log_file w /\
    csv_file w' = Some (store_rows w).
Proof.
  intros Hst Hin term found.
  rewrite (search_contact_run Hst Hin). fold term. fold found.
  eexists. split; [reflexivity|]. cbn [stdout log_file csv_file].
  split; [apply search_filter_entries|].
  split; [now destruct found|]. split; [|split; [|now split]].
  - intros c. unfold found. rewrite filter_In. unfold name_has.
    now rewrite contains_iff.
  - intros Hb. unfold found, term. unfold blank in Hb. rewrite Hb, lower_empty.
    apply filter_all. intros c. apply contains_empty.
Qed.

(** C5, as the code has it.  On a store holding [cs] in which some contact
    has the trimmed target as its name, case-insensitively and as a whole,
    [update_contact] with a blank answer for the phone and, for the email,
    an answer that is not blank and that the store file gives back as
    written (no carriage return, within the field limit of the reader)
    rewrites the store so that the first such contact has the trimmed answer
    as its email and its name and phone as before; the contacts before and
    after it keep their values and their places.  One INFO line is
    logged. *)
Theorem update_contact_email_only
        (w : world) (cs : list entry)
        (raw raw_phone raw_email : string) (more : list string) :
  stored w cs ->
  stdin w = raw :: raw_phone :: raw_email :: more ->
  blank raw_phone ->
  ~ blank raw_email ->
  storable (strip raw_email) ->
  (exists c, In c cs /\ lower (name_of c) = lower (strip raw)) ->
  exists pre name phone email post w',
    cs = (pre ++ (name, phone, email) :: post)%list /\
    Forall (fun c => lower (name_of c) <> lower (strip raw)) pre /\
    lower name = lower (strip raw) /\
    update_contact w = Ok tt w' /\
    stored w' (pre ++ (name, phone, strip raw_email) :: post) /\
    csv_file w' = Some (FIELDNAMES ::
                        map row_of (pre ++ (name, phone, strip raw_email) :: post)) /\
    log_file w' = (log_file w
                   ++ [log_line (now w) "INFO"
                                ("Updated contact: " ++ strip raw)])%list.
Proof.
  intros Hst Hin Hph Hem Sem Hex.
  destruct (first_match_split (same_name (strip raw)) cs)
    as [pre [[[name phone] email] [post [Hcs [Hpre Hc]]]]].
  { destruct Hex as [c [Hc1 Hc2]]. exists c. split; [exact Hc1|].
    now apply same_name_iff. }
  exists pre, name, phone, email, post.
  rewrite Hcs in Hst.
  rewrite (@update_contact_run _ w pre post (name, phone, email) raw raw_phone
             raw_email more Hst Hin Hpre Hc).
  rewrite (updated_email_only _ Hph Hem). cbn [name_of phone_of fst snd].
  eexists. split; [exact Hcs|]. split.
  { apply Forall_impl with (2 := Hpre). intros c Hf. now apply same_name_false. }
  split; [now apply same_name_iff in Hc|].
  split; [reflexivity|]. cbn [csv_file log_file].
  split; [|split; reflexivity].
  apply stored_rows; [reflexivity|].
  pose proof (stored_storable Hst) as Hall.
  apply Forall_app in Hall. destruct Hall as [Hp1 Hp2].
  inversion Hp2 as [|? ? [Hn [Hp _]] Hpost]; subst.
  apply Forall_app. split; [exact Hp1|].
  constructor; [|exact Hpost]. exact (conj Hn (conj Hp Sem)).
Qed.

(** C6.  On a store holding [cs], [delete_contact] leaves the store holding
    the contacts of [cs] whose name differs from the trimmed target,
    case-insensitively and as a whole, in the order they had.  When some
    contact matched, the file is rewritten with them and one INFO line is
    logged.  When none matched, no line is logged and nothing is written
    over the store: a file that existed is kept as it was (one that did
    not has been created, header only, by the read). *)
Theorem delete_contact_removes
        (w : world) (cs : list entry) (raw : string) (more : list string) :
  stored w cs ->
  stdin w = raw :: more ->
  let target := strip raw in
  let kept := filter (fun c => negb (same_name target c)) cs in
  exists w',
    delete_contact w = Ok tt w' /\
    stored w' kept /\
    (forall c, In c kept <->
               In c cs /\ lower (name_of c) <> lower target) /\
    ((exists c, In c cs /\ lower (name_of c) = lower target) ->
     csv_file w' = Some (FIELDNAMES :: map row_of kept) /\
     log_file w' = (log_file w
                    ++ [log_line (now w) "INFO"
                                 ("Deleted contact: " ++ target)])%list) /\
    ((forall c, In c cs -> lower (name_of c) <> lower target) ->
     kept = cs /\
     csv_file w' = csv_file (world_of (ensure_csv_exists w)) /\
     (forall rows, csv_file w = Some rows -> csv_file w' = Some rows) /\
     log_file w' = log_file w /\
     stdout w' = (stdout w ++ ["Enter exact name to delete: ";
                               "Contact not found."])%list).
Proof.
  intros Hst Hin target kept.
  rewrite (delete_contact_run Hst Hin). fold target. fold kept.
  assert (Hmem : forall c, In c kept <->
                           In c cs /\ lower (name_of c) <> lower target).
  { intros c. unfold kept. rewrite filter_In, negb_true_iff.
    now rewrite same_name_false. }
  eexists. split; [reflexivity|].
  destruct (existsb (same_name target) cs) eqn:Ex.
  - (* some contact matches *)
    apply existsb_exists in Ex. destruct Ex as [c [Hc1 Hc2]].
    cbn [csv_file log_file stdout].
    split.
    { apply stored_rows; [reflexivity|].
      apply Forall_filter, (stored_storable Hst). }
    split; [exact Hmem|]. split.
    + intros _. now split.
    + intros Hnone. exfalso. apply (Hnone c Hc1). now apply same_name_iff.
  - (* no contact matches *)
    assert (Hkept : kept = cs).
    { apply filter_keeps_all. intros c Hc.
      now rewrite (existsb_none _ _ _ Ex Hc). }
    cbn [csv_file log_file stdout].
    split.
    { rewrite Hkept. eapply stored_same_rows; [exact Hst | reflexivity]. }
    split; [exact Hmem|]. split.
    + intros [c [Hc1 Hc2]]. exfalso.
      pose proof (existsb_none _ _ _ Ex Hc1) as Hno.
      apply same_name_false in Hno. contradiction.
    + intros _. rewrite ensure_csv_exists_eq. cbn.
      split; [exact Hkept|]. split; [reflexivity|]. split; [|now split].
      intros rows Hrows'. unfold store_rows. now rewrite Hrows'.
Qed.

End Operations.

Lemma add_contact_blank_aborts_witness :
  let w := demo_world (Some [FIELDNAMES; ["Ann"; "1"; "a@x"]]) None
                      ["Bob"; "   "; "b@x"] in
  stdin w = ["Bob"; "   "; "b@x"] /\
  (blank "Bob" \/ blank "   " \/ blank "b@x") /\
  exists w',
    add_contact w = Ok tt w' /\
    csv_file w' = Some [FIELDNAMES; ["Ann"; "1"; "a@x"]] /\
    log_file w' = [] /\
    json_file w' = None /\
    stdout w' = ["Name: "; "Phone: "; "Email: "; "All fields are required."].
Proof.
  intros w.
  assert (H1 : stdin w = ["Bob"; "   "; "b@x"]) by reflexivity.
  assert (H2 : blank "Bob" \/ blank "   " \/ blank "b@x")
    by (right; left; reflexivity).
  split; [exact H1|]. split; [exact H2|].
  exact (@add_contact_blank_aborts _ w "Bob" "   " "b@x" [] H1 H2).
Defined.

Lemma add_contact_appends_witness :
  let w := demo_world (Some [FIELDNAMES; ["Ann"; "1"; "a@x"]]) None
                      [" Bob "; "22"; "b@x "] in
  let cs := [("Ann", "1", "a@x")] in
  let added := ("Bob", "22", "b@x") in
  stored w cs /\
  ~ blank " Bob " /\ ~ blank "22" /\ ~ blank "b@x " /\
  storable (strip " Bob ") /\ storable (strip "22") /\ storable (strip "b@x ") /\
  exists w',
    add_contact w = Ok tt w' /\
    stored w' [("Ann", "1", "a@x"); added] /\
    length [("Ann", "1", "a@x"); added] = 2 /\
    csv_file w' = Some [FIELDNAMES; ["Ann"; "1"; "a@x"]; ["Bob"; "22"; "b@x"]] /\
    log_file w' = [log_line (now w) "INFO" "Added contact: Bob"].
Proof.
  intros w cs added.
  assert (H0 : stored w cs) by reflexivity.
  assert (H1 : ~ blank " Bob ") by (unfold blank; vm_compute; discriminate).
  assert (H2 : ~ blank "22") by (unfold blank; vm_compute; discriminate).
  assert (H3 : ~ blank "b@x ") by (unfold blank; vm_compute; discriminate).
  assert (S1 : storable (strip " Bob ")) by (split; reflexivity).
  assert (S2 : storable (strip "22")) by (split; reflexivity).
  assert (S3 : storable (strip "b@x ")) by (split; reflexivity).
  split; [exact H0|]. split; [exact H1|]. split; [exact H2|].
  split; [exact H3|]. split; [exact S1|]. split; [exact S2|].
  split; [exact S3|].
  exact (@add_contact_appends _ w cs " Bob " "22" "b@x " [] H0 eq_refl
           H1 H2 H3 S1 S2 S3).
Defined.

Lemma search_contact_finds_witness :
  let w := demo_world (Some [FIELDNAMES; ["Ann Lee"; "1"; "a@x"];
                             ["Bob"; "2"; "b@x"]; ["JOANNA"; "3"; "j@x"]])
                      None [" aNN "] in
  let cs := [("Ann Lee", "1", "a@x"); ("Bob", "2", "b@x");
             ("JOANNA", "3", "j@x")] in
  let found := [("Ann Lee", "1", "a@x"); ("JOANNA", "3", "j@x")] in
  stored w cs /\
  exists w',
    search_contact w = Ok tt w' /\
    search_filter "ann" (map contact_of cs) = inr (map contact_of found) /\
    stdout w' = (stdout w ++ "Enter name to search: " :: map show_entry found)%list /\
    (forall c, In c found <->
               In c cs /\
               exists pre post, lower (name_of c) = pre ++ "ann" ++ post) /\
    (blank " aNN " -> found = cs) /\
    log_file w' = log_file w /\
    csv_file w' = Some (store_rows w).
Proof.
  intros w cs found.
  assert (H0 : stored w cs) by reflexivity.
  split; [exact H0|].
  exact (@search_contact_finds _ w cs " aNN " [] H0 eq_refl).
Defined.

Lemma update_contact_email_only_witness :
  let w := demo_world (Some [FIELDNAMES; ["Ann"; "1"; "a@x"];
                             ["Bob"; "2"; "b@x"]; ["BOB"; "3"; "c@x"]])
                      None [" bob "; "  "; " new@x "] in
  let cs := [("Ann", "1", "a@x"); ("Bob", "2", "b@x"); ("BOB", "3", "c@x")] in
  stored w cs /\
  blank "  " /\ ~ blank " new@x " /\ storable (strip " new@x ") /\
  (exists c, In c cs /\ lower (name_of c) = "bob") /\
  exists pre name phone email post w',
    cs = (pre ++ (name, phone, email) :: post)%list /\
    Forall (fun c => lower (name_of c) <> "bob") pre /\
    lower name = "bob" /\
    update_contact w = Ok tt w' /\
    stored w' (pre ++ (name, phone, "new@x") :: post) /\
    csv_file w' = Some (FIELDNAMES ::
                        map row_of (pre ++ (name, phone, "new@x") :: post)) /\
    log_file w' = [log_line (now w) "INFO" "Updated contact: bob"].
Proof.
  intros w cs.
  assert (H0 : stored w cs) by reflexivity.
  assert (H1 : blank "  ") by reflexivity.
  assert (H2 : ~ blank " new@x ") by (unfold blank; vm_compute; discriminate).
  assert (S2 : storable (strip " new@x ")) by (split; reflexivity).
  assert (H3 : exists c, In c cs /\ lower (name_of c) = lower (strip " bob ")).
  { exists ("Bob", "2", "b@x"). split; [right; left; reflexivity | reflexivity]. }
  split; [exact H0|]. split; [exact H1|]. split; [exact H2|].
  split; [exact S2|]. split; [exact H3|].
  exact (@update_contact_email_only _ w cs " bob " "  " " new@x " []
           H0 eq_refl H1 H2 S2 H3).
Defined.

Lemma delete_contact_removes_witness :
  let w := demo_world (Some [FIELDNAMES; ["Ann"; "1"; "a@x"];
                             ["Bob"; "2"; "b@x"]; ["BOB"; "3"; "c@x"];
                             ["Bobby"; "4"; "d@x"]])
                      None [" bob "] in
  let cs := [("Ann", "1", "a@x"); ("Bob", "2", "b@x"); ("BOB", "3", "c@x");
             ("Bobby", "4", "d@x")] in
  let kept := [("Ann", "1", "a@x"); ("Bobby", "4", "d@x")] in
  stored w cs /\
  exists w',
    delete_contact w = Ok tt w' /\
    stored w' kept /\
    (forall c, In c kept <-> In c cs /\ lower (name_of c) <> "bob") /\
    ((exists c, In c cs /\ lower (name_of c) = "bob") ->
     csv_file w' = Some (FIELDNAMES :: map row_of kept) /\
     log_file w' = [log_line (now w) "INFO" "Deleted contact: bob"]) /\
    ((forall c, In c cs -> lower (name_of c) <> "bob") ->
     kept = cs /\
     csv_file w' = csv_file (world_of (ensure_csv_exists w)) /\
     (forall rows, csv_file w = Some rows -> csv_file w' = Some rows) /\
     log_file w' = log_file w /\
     stdout w' = ["Enter exact name to delete: "; "Contact not found."]).
Proof.
  intros w cs kept.
  assert (H0 : stored w cs) by reflexivity.
  split; [exact H0|].
  exact (@delete_contact_removes _ w cs " bob " [] H0 eq_refl).
Defined.

(* ----------------------------------------------------------------- *)
(** *** Text the store does not give back *)

Lemma replicate_succ (n : N) (c : ascii) :
  replicate (N.succ n) c = String c (replicate n c).
Proof. unfold replicate. now rewrite N.iter_succ. Qed.

Lemma char_length_replicate (n : N) (c : ascii) :
  is_continuation c = false -> char_length (replicate n c) = N.to_nat n.
Proof.
  intros Hc. induction n as [|n IH] using N.peano_ind; [reflexivity|].
  rewrite replicate_succ, N2Nat.inj_succ. cbn [char_length].
  now rewrite Hc, IH.
Qed.

Lemma has_char_replicate (n : N) (c d : ascii) :
  Ascii.eqb d c = false -> has_char d (replicate n c) = false.
Proof.
  intros Hc. induction n as [|n IH] using N.peano_ind; [reflexivity|].
  rewrite replicate_succ. cbn [has_char]. now rewrite Hc, IH.
Qed.

Lemma ascii_rstrip_replicate (n : N) (c : ascii) :
  AsciiText.is_space c = false ->
  AsciiText.rstrip (replicate n c) = replicate n c.
Proof.
  intros Hc. induction n as [|n IH] using N.peano_ind; [reflexivity|].
  rewrite replicate_succ. cbn [AsciiText.rstrip]. rewrite IH.
  destruct (replicate n c); [now rewrite Hc | reflexivity].
Qed.

Lemma ascii_strip_replicate (n : N) (c : ascii) :
  AsciiText.is_space c = false ->
  AsciiText.strip (replicate n c) = replicate n c.
Proof.
  intros Hc. unfold AsciiText.strip.
  assert (E : AsciiText.lstrip (replicate n c) = replicate n c).
  { destruct n as [|p] using N.peano_ind; [reflexivity|].
    rewrite replicate_succ. cbn [AsciiText.lstrip]. now rewrite Hc. }
  rewrite E. now apply ascii_rstrip_replicate.
Qed.

Lemma replicate_nonempty (n : N) (c : ascii) :
  (0 < n)%N -> replicate n c <> "".
Proof.
  intros Hn. destruct n as [|p] using N.peano_ind; [lia|].
  rewrite replicate_succ. discriminate.
Qed.

(** A text beyond the field limit: it has no carriage return, and is its
    own trimmed text on ASCII. *)
Lemma over_limit_replicate (n : N) :
  (Csv.field_limit < n)%N ->
  let big := replicate n "a" in
  Csv.universal big = big /\ Csv.within_limit big = false /\
  @strip ascii_runtime big = big /\ big <> "".
Proof.
  intros Hn big. unfold big.
  split; [apply universal_id, has_char_replicate; reflexivity|].
  split.
  { unfold Csv.within_limit. rewrite char_length_replicate by reflexivity.
    rewrite N2Nat.id. now apply N.leb_gt. }
  split; [apply ascii_strip_replicate; reflexivity|].
  apply replicate_nonempty. unfold Csv.field_limit in Hn. lia.
Qed.

Lemma reader_over_limit (rows : list (list string)) (row : list string)
      (s : string) :
  In row rows -> In s row ->
  Csv.within_limit (Csv.universal s) = false ->
  Csv.reader rows = inl (CsvError "field larger than field limit (131072)").
Proof.
  intros Hrow Hs Hlim. unfold Csv.reader.
  destruct (forallb _ _) eqn:E; [|reflexivity].
  rewrite forallb_forall in E.
  specialize (E (map Csv.universal row) (in_map _ _ _ Hrow)).
  rewrite forallb_forall in E.
  specialize (E (Csv.universal s) (in_map _ _ _ Hs)). congruence.
Qed.

Lemma read_contacts_over_limit (w : world) (rows : list (list string))
      (row : list string) (s : string) :
  csv_file w = Some rows ->
  In row rows -> In s row ->
  Csv.within_limit (Csv.universal s) = false ->
  read_contacts w
  = Raise (CsvError "field larger than field limit (131072)") w /\
  forall cs, ~ stored w cs.
Proof.
  intros Hfile Hrow Hs Hlim.
  assert (E : read_contacts w
              = Raise (CsvError "field larger than field limit (131072)") w).
  { rewrite read_contacts_eq. unfold store_rows. rewrite Hfile.
    unfold Csv.dict_reader. rewrite (@reader_over_limit rows row s Hrow Hs Hlim).
    cbn. now rewrite set_csv_same. }
  split; [exact E|]. intros cs H. unfold stored in H. rewrite E in H.
  discriminate.
Qed.

Section Refuted.

Context {rt : Runtime}.

(** On any runtime that trims the three inputs to themselves, adding a name
    with a carriage return leaves a store that reads back another name. *)
Lemma add_as_stated_refuted :
  strip a_cr_b = a_cr_b -> strip "1" = "1" -> strip "e" = "e" ->
  ~ add_as_stated.
Proof.
  intros H1 H2 H3 Claim.
  set (w := demo_world (Some [FIELDNAMES]) None [a_cr_b; "1"; "e"]).
  assert (Hst : stored w []) by reflexivity.
  assert (Hn : ~ blank a_cr_b) by (unfold blank; rewrite H1; discriminate).
  assert (Hp : ~ blank "1") by (unfold blank; rewrite H2; discriminate).
  assert (He : ~ blank "e") by (unfold blank; rewrite H3; discriminate).
  destruct (Claim w [] a_cr_b "1" "e" [] Hst eq_refl Hn Hp He) as [w' [Hrun H]].
  rewrite (add_contact_run Hst eq_refl Hn Hp He) in Hrun.
  injection Hrun as <-. rewrite H1, H2, H3 in H.
  apply stored_iff in H. vm_compute in H. discriminate.
Qed.

(** The same for the email given to [update_contact]. *)
Lemma update_as_stated_refuted :
  strip "Bob" = "Bob" -> strip a_cr_b = a_cr_b ->
  ~ update_as_stated.
Proof.
  intros H1 H2 Claim.
  set (w := demo_world (Some [FIELDNAMES; ["Bob"; "2"; "b@x"]]) None
                       ["Bob"; ""; a_cr_b]).
  assert (Hst : stored w ([] ++ ("Bob", "2", "b@x") :: [])) by reflexivity.
  assert (Hc : same_name (strip "Bob") ("Bob", "2", "b@x") = true).
  { apply same_name_iff. now rewrite H1. }
  assert (Hp : blank "") by apply strip_empty.
  assert (He : ~ blank a_cr_b) by (unfold blank; rewrite H2; discriminate).
  destruct (Claim w [] [] ("Bob", "2", "b@x") "Bob" "" a_cr_b [] Hst eq_refl
                  (Forall_nil _) Hc Hp He) as [w' [Hrun H]].
  rewrite (@update_contact_run _ w [] [] ("Bob", "2", "b@x") "Bob" "" a_cr_b []
             Hst eq_refl (Forall_nil _) Hc) in Hrun.
  injection Hrun as <-. rewrite (updated_email_only _ Hp He) in H.
  rewrite H2 in H. apply stored_iff in H. vm_compute in H. discriminate.
Qed.

End Refuted.

Lemma add_contact_over_limit (n : N) :
  (Csv.field_limit < n)%N ->
  let big := replicate n "a" in
  let w := demo_world (Some [FIELDNAMES]) None [big; "1"; "e"] in
  stored w [] /\ ~ blank big /\ ~ blank "1" /\ ~ blank "e" /\
  exists w',
    add_contact w = Ok tt w' /\
    csv_file w' = Some [FIELDNAMES; [big; "1"; "e"]] /\
    read_contacts w'
    = Raise (CsvError "field larger than field limit (131072)") w' /\
    forall cs, ~ stored w' cs.
Proof.
  intros Hlim big w.
  destruct (over_limit_replicate Hlim) as [Hu [Hl [Hs Hne]]]. fold big in Hu, Hl, Hs, Hne.
  assert (Hst : stored w []) by reflexivity.
  assert (Hn : ~ blank big) by (unfold blank; now rewrite Hs).
  assert (Hp : ~ blank "1") by (unfold blank; vm_compute; discriminate).
  assert (He : ~ blank "e") by (unfold blank; vm_compute; discriminate).
  split; [exact Hst|]. split; [exact Hn|]. split; [exact Hp|].
  split; [exact He|].
  rewrite (add_contact_run Hst eq_refl Hn Hp He). rewrite Hs.
  eexists. split; [reflexivity|]. split; [reflexivity|].
  apply (@read_contacts_over_limit _ [FIELDNAMES; [big; "1"; "e"]]
           [big; "1"; "e"] big).
  - reflexivity.
  - right. now left.
  - now left.
  - now rewrite Hu.
Qed.

(** C3 fails as stated, in two ways.  A field with a carriage return inside
    is not blank, yet the store reads it back with a line feed in its
    place: the file is written with [newline=""] and read without.  And a
    field longer than the field limit of the reader is written, after which
    the store cannot be read at all.  The first holds on every runtime that
    trims the three inputs to themselves, as CPython does. *)
Lemma add_contact_appends_counterexample :
  (let w := demo_world (Some [FIELDNAMES]) None [a_cr_b; "1"; "e"] in
   stored w [] /\ ~ blank a_cr_b /\ ~ blank "1" /\ ~ blank "e" /\
   exists w',
     add_contact w = Ok tt w' /\
     csv_file w' = Some [FIELDNAMES; [a_cr_b; "1"; "e"]] /\
     stored w' [(a_lf_b, "1", "e")] /\
     ~ stored w' [(a_cr_b, "1", "e")]) /\
  (let big := replicate 131073 "a" in
   let w := demo_world (Some [FIELDNAMES]) None [big; "1"; "e"] in
   stored w [] /\ ~ blank big /\ ~ blank "1" /\ ~ blank "e" /\
   exists w',
     add_contact w = Ok tt w' /\
     csv_file w' = Some [FIELDNAMES; [big; "1"; "e"]] /\
     read_contacts w'
     = Raise (CsvError "field larger than field limit (131072)") w' /\
     forall cs, ~ stored w' cs) /\
  (forall rt : Runtime,
      strip a_cr_b = a_cr_b -> strip "1" = "1" -> strip "e" = "e" ->
      ~ add_as_stated).
Proof.
  split; [|split].
  - intros w.
    assert (Hst : stored w []) by reflexivity.
    assert (Hn : ~ blank a_cr_b) by (unfold blank; vm_compute; discriminate).
    assert (Hp : ~ blank "1") by (unfold blank; vm_compute; discriminate).
    assert (He : ~ blank "e") by (unfold blank; vm_compute; discriminate).
    split; [exact Hst|]. split; [exact Hn|]. split; [exact Hp|].
    split; [exact He|].
    rewrite (add_contact_run Hst eq_refl Hn Hp He).
    eexists. split; [reflexivity|]. split; [reflexivity|].
    split; [reflexivity|]. intros H. vm_compute in H. discriminate.
  - exact (@add_contact_over_limit 131073%N eq_refl).
  - intros rt. apply add_as_stated_refuted.
Qed.

Lemma update_contact_over_limit (n : N) :
  (Csv.field_limit < n)%N ->
  let big := replicate n "a" in
  let cs := [("Bob", "2", "b@x")] in
  let w := demo_world (Some (FIELDNAMES :: map row_of cs)) None
                      ["Bob"; ""; big] in
  stored w cs /\ blank "" /\ ~ blank big /\
  (exists c, In c cs /\ lower (name_of c) = lower (strip "Bob")) /\
  exists w',
    update_contact w = Ok tt w' /\
    csv_file w' = Some [FIELDNAMES; ["Bob"; "2"; big]] /\
    read_contacts w'
    = Raise (CsvError "field larger than field limit (131072)") w' /\
    forall cs', ~ stored w' cs'.
Proof.
  intros Hlim big cs w.
  destruct (over_limit_replicate Hlim) as [Hu [Hl [Hs Hne]]]. fold big in Hu, Hl, Hs, Hne.
  assert (Hst : stored w ([] ++ ("Bob", "2", "b@x") :: [])) by reflexivity.
  assert (Hp : blank "") by reflexivity.
  assert (He : ~ blank big) by (unfold blank; now rewrite Hs).
  assert (Hc : same_name (strip "Bob") ("Bob", "2", "b@x") = true)
    by reflexivity.
  split; [exact Hst|]. split; [exact Hp|]. split; [exact He|].
  split.
  { exists ("Bob", "2", "b@x"). split; [now left | reflexivity]. }
  rewrite (@update_contact_run _ w [] [] ("Bob", "2", "b@x") "Bob" "" big []
             Hst eq_refl (Forall_nil _) Hc).
  rewrite (updated_email_only _ Hp He), Hs.
  eexists. split; [reflexivity|]. split; [reflexivity|].
  apply (@read_contacts_over_limit _ [FIELDNAMES; ["Bob"; "2"; big]]
           ["Bob"; "2"; big] big).
  - reflexivity.
  - right. now left.
  - right. right. now left.
  - now rewrite Hu.
Qed.

(** C5 fails as stated, in the same two ways: an email with a carriage
    return inside is read back with a line feed in its place, and one
    longer than the field limit of the reader leaves a store that cannot be
    read. *)
Lemma update_contact_email_only_counterexample :
  (let cs := [("Bob", "2", "b@x")] in
   let w := demo_world (Some (FIELDNAMES :: map row_of cs)) None
                       ["Bob"; ""; a_cr_b] in
   stored w cs /\ blank "" /\ ~ blank a_cr_b /\
   (exists c, In c cs /\ lower (name_of c) = lower (strip "Bob")) /\
   exists w',
     update_contact w = Ok tt w' /\
     csv_file w' = Some [FIELDNAMES; ["Bob"; "2"; a_cr_b]] /\
     stored w' [("Bob", "2", a_lf_b)] /\
     ~ stored w' [("Bob", "2", a_cr_b)]) /\
  (let big := replicate 131073 "a" in
   let cs := [("Bob", "2", "b@x")] in
   let w := demo_world (Some (FIELDNAMES :: map row_of cs)) None
                       ["Bob"; ""; big] in
   stored w cs /\ blank "" /\ ~ blank big /\
   (exists c, In c cs /\ lower (name_of c) = lower (strip "Bob")) /\
   exists w',
     update_contact w = Ok tt w' /\
     csv_file w' = Some [FIELDNAMES; ["Bob"; "2"; big]] /\
     read_contacts w'
     = Raise (CsvError "field larger than field limit (131072)") w' /\
     forall cs', ~ stored w' cs') /\
  (forall rt : Runtime,
      strip "Bob" = "Bob" -> strip a_cr_b = a_cr_b -> ~ update_as_stated).
Proof.
  split; [|split].
  - intros cs w.
    assert (Hst : stored w ([] ++ ("Bob", "2", "b@x") :: [])) by reflexivity.
    assert (Hp : blank "") by reflexivity.
    assert (He : ~ blank a_cr_b) by (unfold blank; vm_compute; discriminate).
    assert (Hc : same_name (strip "Bob") ("Bob", "2", "b@x") = true)
      by reflexivity.
    split; [exact Hst|]. split; [exact Hp|]. split; [exact He|].
    split.
    { exists ("Bob", "2", "b@x"). split; [now left | reflexivity]. }
    rewrite (@update_contact_run _ w [] [] ("Bob", "2", "b@x") "Bob" "" a_cr_b []
               Hst eq_refl (Forall_nil _) Hc).
    eexists. split; [reflexivity|]. split; [reflexivity|].
    split; [reflexivity|]. intros H. vm_compute in H. discriminate.
  - exact (@update_contact_over_limit 131073%N eq_refl).
  - intros rt. apply update_as_stated_refuted.
Qed.

(* ================================================================= *)
(** ** Export and import *)

Section Interchange.

Context {rt : Runtime}.

(** C7.  When the interchange file parses to a value that is not an array,
    the [try] block of [import_json] raises the [ValueError] of the format
    check; [import_json] itself returns normally after reporting it: the
    store file is what it was, and exactly one line, at level ERROR, is
    added to the log. *)
Theorem import_json_not_array (w : world) (v : json) :
  json_file w = Some (Document v) ->
  (forall l, v <> JArr l) ->
  exists w',
    import_json_try (Document v) w
    = Raise (ValueError "JSON must be a list of objects.") w /\
    import_json w = Ok tt w' /\
    csv_file w' = csv_file w /\
    json_file w' = json_file w /\
    log_file w' = (log_file w
                   ++ [log_line (now w) "ERROR"
                         "Import JSON failed: JSON must be a list of objects."])%list /\
    stdout w' = (stdout w
                 ++ ["Failed to import JSON: JSON must be a list of objects."])%list.
Proof.
  intros Hfile Hv.
  assert (Htry : import_json_try (Document v) w
                 = Raise (ValueError "JSON must be a list of objects.") w).
  { unfold import_json_try. cbn.
    destruct v; try reflexivity. now destruct (Hv l). }
  unfold import_json. rewrite Hfile. unfold try_except. rewrite Htry.
  eexists. split; [reflexivity|]. split; [reflexivity|]. cbn. now repeat split.
Qed.

(** C9.  When the interchange file parses to the empty array, [import_json]
    returns normally, rewrites the store to the header alone, whatever it
    held, so that it holds no contact, logs one INFO line reporting 0
    imported contacts and reports no error.  [export_json], run on the store
    so emptied, writes no interchange file and logs nothing. *)
Theorem import_json_empty_array (w : world) :
  json_file w = Some (Document (JArr [])) ->
  exists w',
    import_json w = Ok tt w' /\
    csv_file w' = Some [FIELDNAMES] /\
    stored w' [] /\
    log_file w' = (log_file w
                   ++ [log_line (now w) "INFO"
                                "Imported 0 contacts from JSON."])%list /\
    stdout w' = (stdout w ++ ["Imported 0 contacts from contacts.json."])%list /\
    exists w'',
      export_json w' = Ok tt w'' /\
      json_file w'' = json_file w' /\
      log_file w'' = log_file w' /\
      stdout w'' = (stdout w' ++ ["No contacts to export."])%list.
Proof.
  intros Hfile. unfold import_json. rewrite Hfile.
  eexists. split; [reflexivity|]. cbn.
  repeat split.
  eexists. split; [reflexivity|]. cbn. now repeat split.
Qed.

Lemma clean_one_exported (c : entry) :
  clean_one (Json.of_contact (contact_of c)) = inr (contact_of (strip_entry c)).
Proof. reflexivity. Qed.

Lemma clean_exported (cs : list entry) :
  clean (map Json.of_contact (map contact_of cs))
  = inr (map contact_of (map strip_entry cs)).
Proof.
  induction cs as [|c cs IH]; [reflexivity|].
  cbn [map clean]. rewrite clean_one_exported, IH. reflexivity.
Qed.

Lemma export_json_entries (w : world) (cs : list entry) :
  stored w cs -> cs <> [] ->
  export_json w
  = Ok tt
       (set_stdout
          (stdout w ++ [("Exported " ++ of_nat (length cs)
                         ++ " contacts to contacts.json.")%string])%list
          (set_log
             (log_file w ++ [log_line (now w) "INFO"
                               ("Exported " ++ of_nat (length cs)
                                ++ " contacts to JSON.")%string])%list
             (set_json
                (Some (Document (JArr (map Json.of_contact (map contact_of cs)))))
                (set_csv (Some (store_rows w)) w)))).
Proof.
  intros Hst Hne. unfold export_json.
  rewrite (bind_ok _ (read_contacts_value Hst)).
  destruct cs as [|c cs]; [contradiction|].
  cbn [map]. cbn. now rewrite !length_map.
Qed.

Lemma import_json_exported (w : world) (cs : list entry) :
  json_file w
  = Some (Document (JArr (map Json.of_contact (map contact_of cs)))) ->
  exists w',
    import_json w = Ok tt w' /\
    csv_file w' = Some (FIELDNAMES :: map row_of (map strip_entry cs)) /\
    log_file w' = (log_file w
                   ++ [log_line (now w) "INFO"
                         ("Imported " ++ of_nat (length cs)
                          ++ " contacts from JSON.")%string])%list.
Proof.
  intros Hfile. unfold import_json. rewrite Hfile.
  unfold try_except, import_json_try.
  unfold bind at 1. cbn [Json.load ret].
  unfold bind at 1, lift. rewrite clean_exported.
  rewrite (bind_ok _ (write_contacts_entries _ _)).
  eexists. split; [reflexivity|]. cbn. now rewrite !length_map.
Qed.

(** Export then import, in general: the store file comes back with every
    field trimmed. *)
Lemma export_import_trims (w : world) (cs : list entry) :
  stored w cs -> cs <> [] ->
  exists w1 w2,
    export_json w = Ok tt w1 /\
    import_json w1 = Ok tt w2 /\
    csv_file w2 = Some (FIELDNAMES :: map row_of (map strip_entry cs)).
Proof.
  intros Hst Hne.
  pose proof (export_json_entries Hst Hne) as Hex.
  destruct (export_json w) as [[] w1|e w1]; [|discriminate].
  destruct (@import_json_exported w1 cs) as [w2 [Hrun [Hcsv _]]].
  { injection Hex as ->. reflexivity. }
  exists w1, w2. split; [reflexivity|]. now split.
Qed.

Lemma strip_entry_trimmed (cs : list entry) :
  Forall entry_trimmed cs -> map strip_entry cs = cs.
Proof.
  induction 1 as [|[[n p] e] cs [Hn [Hp He]] _ IH]; [reflexivity|].
  cbn [map]. rewrite IH. unfold strip_entry.
  unfold trimmed in *. cbn [name_of phone_of email_of fst snd] in *.
  now rewrite Hn, Hp, He.
Qed.

(** C1, as the code has it.  On a store holding a non-empty list [cs] of
    contacts none of whose fields has leading or trailing whitespace,
    [export_json] followed at once by [import_json] both return normally
    and leave the store holding [cs] again: the same tuples in the same
    order, the file being the header and their records. *)
Theorem export_import_roundtrip (w : world) (cs : list entry) :
  stored w cs ->
  cs <> [] ->
  Forall entry_trimmed cs ->
  exists w1 w2,
    export_json w = Ok tt w1 /\
    import_json w1 = Ok tt w2 /\
    stored w2 cs /\
    csv_file w2 = Some (FIELDNAMES :: map row_of cs).
Proof.
  intros Hst Hne Htr.
  destruct (export_import_trims Hst Hne) as [w1 [w2 [H1 [H2 Hcsv]]]].
  rewrite (strip_entry_trimmed Htr) in Hcsv.
  exists w1, w2. split; [exact H1|]. split; [exact H2|].
  split; [|exact Hcsv].
  apply stored_rows; [exact Hcsv | exact (stored_storable Hst)].
Qed.

(* ----------------------------------------------------------------- *)
(** *** The import of an array *)

Lemma clean_objects (ms : list (list (string * json))) :
  clean (map JObj ms) = inr (map contact_of (map entry_of_members ms)).
Proof.
  induction ms as [|m ms IH]; [reflexivity|].
  cbn [map clean]. rewrite IH. reflexivity.
Qed.

Lemma clean_inr (l : list json) (cleaned : list contact) :
  clean l = inr cleaned -> exists ms, l = map JObj ms.
Proof.
  revert cleaned. induction l as [|v l IH]; intros cleaned H.
  - now exists [].
  - cbn [clean] in H.
    destruct v as [| | | | | |m]; try discriminate.
    cbn [clean_one rbind] in H.
    destruct (clean l) as [e|ds]; [discriminate|].
    destruct (IH ds eq_refl) as [ms ->]. now exists (m :: ms).
Qed.

Lemma clean_stops (ms : list (list (string * json))) (v : json) (rest : list json) :
  (forall m, v <> JObj m) ->
  clean (map JObj ms ++ v :: rest)
  = inl (AttributeError ("'" ++ Json.type_name v
                         ++ "' object has no attribute 'get'")).
Proof.
  intros Hv. induction ms as [|m ms IH].
  - cbn [map app clean]. destruct v; try reflexivity. now destruct (Hv members).
  - cbn [map app clean]. cbn [clean_one rbind]. now rewrite IH.
Qed.

Lemma import_json_objects (w : world) (ms : list (list (string * json))) :
  json_file w = Some (Document (JArr (map JObj ms))) ->
  import_json w
  = Ok tt
      {| csv_file := Some (FIELDNAMES :: map row_of (map entry_of_members ms));
         json_file := json_file w;
         log_file := (log_file w
                      ++ [log_line (now w) "INFO"
                            ("Imported " ++ of_nat (length ms)
                             ++ " contacts from JSON.")])%list;
         stdin := stdin w;
         stdout := (stdout w
                    ++ [("Imported " ++ of_nat (length ms)
                         ++ " contacts from contacts.json.")%string])%list;
         now := now w |}.
Proof.
  intros Hfile. unfold import_json. rewrite Hfile.
  unfold try_except, import_json_try.
  unfold bind at 1. cbn [Json.load ret].
  unfold bind at 1, lift. rewrite clean_objects.
  rewrite (bind_ok _ (write_contacts_entries _ _)).
  unfold print, write_log, try_except, bind, ret. cbn.
  rewrite !length_map, <- Hfile. reflexivity.
Qed.

Lemma import_json_fails (w : world) (content : json_content) (e : exn) :
  json_file w = Some content ->
  import_json_try content w = Raise e w ->
  import_json w
  = Ok tt
      {| csv_file := csv_file w;
         json_file := json_file w;
         log_file := (log_file w
                      ++ [log_line (now w) "ERROR"
                            ("Import JSON failed: " ++ exn_str e)])%list;
         stdin := stdin w;
         stdout := (stdout w ++ [("Failed to import JSON: " ++ exn_str e)%string])%list;
         now := now w |}.
Proof.
  intros Hfile Htry. unfold import_json. rewrite Hfile.
  unfold try_except. rewrite Htry. rewrite <- Hfile. reflexivity.
Qed.

(** Whatever the runtime, the import of a stale interchange file after an
    export that wrote nothing fills the empty store. *)
Lemma roundtrip_as_stated_refuted : ~ roundtrip_as_stated.
Proof.
  intros Claim.
  set (m := [("Name", JStr "Old"); ("Phone", JStr "0"); ("Email", JStr "o@x")]).
  set (w := demo_world (Some [FIELDNAMES]) (Some (Document (JArr (map JObj [m]))))
                       []).
  assert (Hst : stored w []) by reflexivity.
  assert (Hex : export_json w
                = Ok tt (set_stdout ["No contacts to export."] w))
    by reflexivity.
  pose proof (@import_json_objects (set_stdout ["No contacts to export."] w)
                                   [m] eq_refl) as Him.
  pose proof (Claim w [] Hst (Forall_nil _) _ _ Hex Him) as H.
  apply stored_iff in H. unfold store_rows in H. cbn [csv_file] in H.
  unfold Csv.dict_reader, Csv.reader in H.
  destruct (forallb _ _); discriminate.
Qed.

End Interchange.

Lemma import_json_not_array_witness :
  let v := JObj [("Name", JStr "Ann"); ("Phone", JStr "1"); ("Email", JStr "a@x")] in
  let w := demo_world (Some [FIELDNAMES; ["Bob"; "2"; "b@x"]])
                      (Some (Document v)) [] in
  json_file w = Some (Document v) /\
  (forall l, v <> JArr l) /\
  exists w',
    import_json_try (Document v) w
    = Raise (ValueError "JSON must be a list of objects.") w /\
    import_json w = Ok tt w' /\
    csv_file w' = Some [FIELDNAMES; ["Bob"; "2"; "b@x"]] /\
    json_file w' = json_file w /\
    log_file w' = [log_line (now w) "ERROR"
                     "Import JSON failed: JSON must be a list of objects."] /\
    stdout w' = ["Failed to import JSON: JSON must be a list of objects."].
Proof.
  intros v w.
  assert (H1 : json_file w = Some (Document v)) by reflexivity.
  assert (H2 : forall l, v <> JArr l) by (intros l; discriminate).
  split; [exact H1|]. split; [exact H2|].
  exact (@import_json_not_array _ w v H1 H2).
Defined.

Lemma import_json_empty_array_witness :
  let w := demo_world (Some [FIELDNAMES; ["Bob"; "2"; "b@x"]; ["Ann"; "1"; "a@x"]])
                      (Some (Document (JArr []))) [] in
  stored w [("Bob", "2", "b@x"); ("Ann", "1", "a@x")] /\
  json_file w = Some (Document (JArr [])) /\
  exists w',
    import_json w = Ok tt w' /\
    csv_file w' = Some [FIELDNAMES] /\
    stored w' [] /\
    log_file w' = [log_line (now w) "INFO" "Imported 0 contacts from JSON."] /\
    stdout w' = ["Imported 0 contacts from contacts.json."] /\
    exists w'',
      export_json w' = Ok tt w'' /\
      json_file w'' = json_file w' /\
      log_file w'' = log_file w' /\
      stdout w'' = (stdout w' ++ ["No contacts to export."])%list.
Proof.
  intros w.
  assert (H1 : json_file w = Some (Document (JArr []))) by reflexivity.
  split; [reflexivity|]. split; [exact H1|].
  exact (@import_json_empty_array _ w H1).
Defined.

Lemma export_import_roundtrip_witness :
  let cs := [("Ann Lee", "1", "a@x"); ("Bob", "", "b@x")] in
  let w := demo_world (Some [FIELDNAMES; ["Ann Lee"; "1"; "a@x"]; ["Bob"; ""; "b@x"]])
                      (Some (Document (JArr [JInt 7]))) [] in
  stored w cs /\ cs <> [] /\ Forall entry_trimmed cs /\
  exists w1 w2,
    export_json w = Ok tt w1 /\
    import_json w1 = Ok tt w2 /\
    stored w2 cs /\
    csv_file w2 = Some (FIELDNAMES :: map row_of cs).
Proof.
  intros cs w.
  assert (H1 : stored w cs) by reflexivity.
  assert (H2 : cs <> []) by discriminate.
  assert (H3 : Forall entry_trimmed cs)
    by (repeat constructor; reflexivity).
  split; [exact H1|]. split; [exact H2|]. split; [exact H3|].
  exact (@export_import_roundtrip _ w cs H1 H2 H3).
Defined.

(** C1 fails as stated, in two ways.  On the empty list [export_json]
    writes nothing, so the import reads an interchange file left from
    before and fills the store from it: this on every runtime.  And a field
    with whitespace around it is not blank, yet comes back trimmed. *)
Lemma export_import_roundtrip_counterexample :
  (let old := JArr [JObj [("Name", JStr "Old"); ("Phone", JStr "0");
                          ("Email", JStr "o@x")]] in
   let w := demo_world (Some [FIELDNAMES]) (Some (Document old)) [] in
   stored w [] /\ Forall entry_no_blank [] /\
   exists w1 w2,
     export_json w = Ok tt w1 /\
     import_json w1 = Ok tt w2 /\
     stored w2 [("Old", "0", "o@x")] /\
     ~ stored w2 []) /\
  (let cs := [(" Bob", "2", "b@x")] in
   let w := demo_world (Some [FIELDNAMES; [" Bob"; "2"; "b@x"]]) None [] in
   stored w cs /\ Forall entry_no_blank cs /\
   exists w1 w2,
     export_json w = Ok tt w1 /\
     import_json w1 = Ok tt w2 /\
     stored w2 [("Bob", "2", "b@x")] /\
     ~ stored w2 cs) /\
  (forall rt : Runtime, ~ roundtrip_as_stated).
Proof.
  split; [|split].
  - intros old w. split; [reflexivity|]. split; [constructor|].
    exists (world_of (export_json w)),
           (world_of (import_json (world_of (export_json w)))).
    split; [reflexivity|]. split; [reflexivity|].
    split; [reflexivity|]. intros H. vm_compute in H. discriminate.
  - intros cs w. split; [reflexivity|]. split.
    + repeat constructor; unfold blank; vm_compute; discriminate.
    + exists (world_of (export_json w)),
             (world_of (import_json (world_of (export_json w)))).
      split; [reflexivity|]. split; [reflexivity|].
      split; [reflexivity|]. intros H. vm_compute in H. discriminate.
  - intros rt. apply roundtrip_as_stated_refuted.
Qed.

(* ================================================================= *)
(** ** Records shorter than the header *)

(** C8, what the code does.  For a record of the store file that is not
    blank and has fewer fields than the header, [read_contacts] returns a
    contact in which every column the record does not reach holds [None],
    the fill value of [csv.DictReader], not the empty text, and no surplus
    fields.  (The file is one whose fields are read as written.) *)
Theorem read_contacts_short_row
        (w : world) (header row : list string) (body : list (list string))
        (key : string) :
  csv_file w = Some (header :: body) ->
  readable (header :: body) ->
  In row body ->
  row <> [] ->
  length row < length header ->
  In key (skipn (length row) header) ->
  exists contacts c,
    value_of (read_contacts w) = Some contacts /\
    In c contacts /\
    c = Csv.row_to_dict header row /\
    getitem key c = inr None /\
    getitem key c <> inr (Some "") /\
    extra c = None.
Proof.
  intros Hfile Hread Hrow Hne Hlen Hkey.
  exists (Csv.dicts (header :: body)), (Csv.row_to_dict header row).
  split.
  { rewrite read_contacts_readable; unfold store_rows; now rewrite Hfile. }
  split.
  { cbn [Csv.dicts]. apply in_map, filter_In. split; [exact Hrow|].
    now destruct row. }
  split; [reflexivity|].
  assert (E : getitem key (Csv.row_to_dict header row) = inr None).
  { unfold Csv.row_to_dict, getitem.
    destruct (Nat.ltb_spec (length header) (length row)) as [H|H]; [lia|].
    destruct (Nat.ltb_spec (length row) (length header)) as [H'|H']; [|lia].
    cbn [items extra]. now rewrite fill_restval_none. }
  split; [exact E|]. split; [rewrite E; discriminate|].
  unfold Csv.row_to_dict.
  destruct (Nat.ltb_spec (length header) (length row)) as [H|H]; [lia|].
  now destruct (length row <? length header)%nat.
Qed.

Lemma read_contacts_short_row_witness :
  let w := demo_world (Some [FIELDNAMES; ["Bob"; "123"]]) None [] in
  readable [FIELDNAMES; ["Bob"; "123"]] /\
  exists contacts c,
    value_of (read_contacts w) = Some contacts /\
    In c contacts /\
    c = {| items := [("Name", Some "Bob"); ("Phone", Some "123");
                     ("Email", None)];
           extra := None |} /\
    getitem "Email" c = inr None /\
    getitem "Email" c <> inr (Some "") /\
    extra c = None.
Proof.
  intros w.
  assert (Hr : readable [FIELDNAMES; ["Bob"; "123"]])
    by (repeat constructor).
  split; [exact Hr|].
  apply (@read_contacts_short_row w FIELDNAMES ["Bob"; "123"]
           [["Bob"; "123"]] "Email").
  - reflexivity.
  - exact Hr.
  - left. reflexivity.
  - discriminate.
  - cbn. lia.
  - left. reflexivity.
Defined.

(* ================================================================= *)
(** ** The form of the store file *)

Create HintDb form discriminated.

Lemma world_of_lift {A} (r : exn + A) (w : world) : world_of (lift r w) = w.
Proof. now destruct r. Qed.

Lemma keeps_same {A} (m : M A) :
  (forall w, csv_file (world_of (m w)) = csv_file w) -> keeps_form m.
Proof. intros H w. left. apply H. Qed.

Lemma keeps_ret {A} (a : A) : keeps_form (ret a).
Proof. now apply keeps_same. Qed.

Lemma keeps_raise {A} (e : exn) : keeps_form (@raise A e).
Proof. now apply keeps_same. Qed.

Lemma keeps_lift {A} (r : exn + A) : keeps_form (lift r).
Proof. apply keeps_same. intros w. now destruct r. Qed.

Lemma keeps_print (s : string) : keeps_form (print s).
Proof. now apply keeps_same. Qed.

Lemma keeps_input (prompt : string) : keeps_form (input prompt).
Proof. apply keeps_same. intros w. unfold input. now destruct (stdin w). Qed.

Lemma keeps_write_log (level msg : string) : keeps_form (write_log level msg).
Proof. now apply keeps_same. Qed.

Lemma keeps_dump (contacts : list contact) : keeps_form (Json.dump contacts).
Proof. now apply keeps_same. Qed.

Lemma keeps_load (content : json_content) : keeps_form (Json.load content).
Proof. apply keeps_same. intros w. now destruct content. Qed.

Lemma keeps_bind {A B} (m : M A) (k : A -> M B) :
  keeps_form m -> (forall a, keeps_form (k a)) -> keeps_form (bind m k).
Proof.
  intros Hm Hk w. unfold bind. specialize (Hm w).
  destruct (m w) as [a w1|e w1]; cbn [world_of] in *; [|exact Hm].
  destruct (Hk a w1) as [E|F]; [|now right].
  rewrite E. exact Hm.
Qed.

Lemma keeps_try {A} (m : M A) (h : exn -> M A) :
  keeps_form m -> (forall e, keeps_form (h e)) -> keeps_form (try_except m h).
Proof.
  intros Hm Hh w. unfold try_except. specialize (Hm w).
  destruct (m w) as [a w1|e w1]; cbn [world_of] in *; [exact Hm|].
  destruct (Hh e w1) as [E|F]; [|now right].
  rewrite E. exact Hm.
Qed.

#[local] Hint Resolve keeps_ret keeps_raise keeps_lift keeps_print keeps_input
  keeps_write_log keeps_dump keeps_load : form.

Lemma keeps_ensure_csv_exists : keeps_form ensure_csv_exists.
Proof.
  intros w. rewrite ensure_csv_exists_eq. cbn. unfold store_rows.
  destruct (csv_file w); [now left|]. right. now exists [].
Qed.

Lemma keeps_read_contacts : keeps_form read_contacts.
Proof.
  intros w. rewrite read_contacts_eq, world_of_lift. cbn. unfold store_rows.
  destruct (csv_file w); [now left|]. right. now exists [].
Qed.

(** Sequencing, and the branches of a conditional. *)
Ltac form_step :=
  match goal with
  | |- keeps_form (bind _ _) => apply keeps_bind; [|intros ?]
  | |- keeps_form (try_except _ _) => apply keeps_try; [|intros ?]
  | |- keeps_form (if ?b then _ else _) => destruct b
  | |- keeps_form (match ?l with [] => _ | _ :: _ => _ end) => destruct l
  | |- keeps_form _ => solve [auto with form]
  end.

Section Form.

Context {rt : Runtime}.

(** The record written for any dict that passes the check on its keys. *)
Lemma dict_to_list_row (c : contact) (row : list string) :
  Csv.dict_to_list FIELDNAMES c = inr row ->
  row = row_of (Csv.cell c "Name", Csv.cell c "Phone", Csv.cell c "Email").
Proof.
  unfold Csv.dict_to_list. destruct (Csv.wrong_fields FIELDNAMES c);
    [now intros [= <-] | discriminate].
Qed.

Lemma writerows_form (contacts : list contact) (w : world) :
  well_formed (csv_file w) ->
  well_formed (csv_file (world_of (Csv.writerows FIELDNAMES contacts w))).
Proof.
  revert w. induction contacts as [|c contacts IH]; intros w Hw; [exact Hw|].
  cbn [Csv.writerows]. unfold bind at 1, lift.
  destruct (Csv.dict_to_list FIELDNAMES c) as [e|row] eqn:E; [exact Hw|].
  unfold bind at 1, Csv.writerow. apply IH.
  destruct Hw as [cs Hcs]. cbn. rewrite Hcs.
  exists (cs ++ [(Csv.cell c "Name", Csv.cell c "Phone", Csv.cell c "Email")])%list.
  rewrite map_app, (dict_to_list_row _ E). reflexivity.
Qed.

Lemma write_contacts_form (contacts : list contact) (w : world) :
  well_formed (csv_file (world_of (write_contacts contacts w))).
Proof.
  unfold write_contacts, bind at 1, Csv.truncate.
  unfold bind at 1, Csv.writeheader, Csv.writerow.
  apply writerows_form. now exists [].
Qed.

Lemma keeps_write_contacts (contacts : list contact) :
  keeps_form (write_contacts contacts).
Proof. intros w. right. apply write_contacts_form. Qed.

#[local] Hint Resolve keeps_ensure_csv_exists keeps_read_contacts
  keeps_write_contacts : form.

Lemma keeps_add_contact : keeps_form add_contact.
Proof. unfold add_contact. repeat form_step. Qed.

Lemma keeps_update_loop (name : string) (seen rest : list contact) :
  keeps_form (update_loop name seen rest).
Proof.
  revert seen. induction rest as [|c rest IH]; intros seen; cbn [update_loop].
  - auto with form.
  - apply keeps_bind; [auto with form|]. intros n.
    destruct (n =? lower name); [|apply IH].
    repeat form_step.
Qed.

Lemma keeps_update_contact : keeps_form update_contact.
Proof.
  unfold update_contact. repeat form_step. apply keeps_update_loop.
Qed.

Lemma keeps_delete_contact : keeps_form delete_contact.
Proof. unfold delete_contact. repeat form_step. Qed.

Lemma keeps_import_json : keeps_form import_json.
Proof.
  intros w. unfold import_json. destruct (json_file w) as [content|].
  - revert w. change (keeps_form (try_except (import_json_try content)
      (fun e => print ("Failed to import JSON: " ++ exn_str e) ;;;
                write_log "ERROR" ("Import JSON failed: " ++ exn_str e)))).
    unfold import_json_try.
    apply keeps_try; [|intros e; repeat form_step].
    apply keeps_bind; [auto with form|]. intros v.
    destruct v; repeat form_step.
  - now left.
Qed.

(** C10.  [write_contacts] is the one place where records of contacts are
    written: given the dicts of the contacts [cs] it leaves the file as the
    header [Name,Phone,Email] followed by the record of each contact of
    [cs], in that order; given any dicts at all it leaves, even when it
    raises, the header followed by records of three fields.  Creating the
    store leaves the header alone.  So creating the store and each of add,
    update, delete and import, run from any world and however they end,
    leave the store file either as they found it or in that form; a file
    in that form is therefore still in that form afterwards. *)
Theorem store_file_form :
  (forall (cs : list entry) (w : world),
      write_contacts (map contact_of cs) w
      = Ok tt (set_csv (Some (FIELDNAMES :: map row_of cs)) w)) /\
  (forall (contacts : list contact) (w : world),
      well_formed (csv_file (world_of (write_contacts contacts w)))) /\
  (forall w : world,
      csv_file w = None ->
      ensure_csv_exists w = Ok tt (set_csv (Some [FIELDNAMES]) w)) /\
  keeps_form ensure_csv_exists /\
  keeps_form add_contact /\
  keeps_form update_contact /\
  keeps_form delete_contact /\
  keeps_form import_json /\
  (forall (A : Type) (m : M A),
      keeps_form m ->
      forall w, well_formed (csv_file w) ->
                well_formed (csv_file (world_of (m w)))).
Proof.
  split; [exact write_contacts_entries|].
  split; [exact write_contacts_form|].
  split.
  { intros w H. rewrite ensure_csv_exists_eq. unfold store_rows. now rewrite H. }
  split; [exact keeps_ensure_csv_exists|].
  split; [exact keeps_add_contact|].
  split; [exact keeps_update_contact|].
  split; [exact keeps_delete_contact|].
  split; [exact keeps_import_json|].
  intros A m Hm w Hw. destruct (Hm w) as [E|F]; [now rewrite E | exact F].
Qed.

End Form.

(* ================================================================= *)
(** * The program as a whole *)

(** ** What the steps of the program keep *)

(** A relation between the world before and the world after that the
    silent steps of the program keep: it holds across printing, reading a
    line and creating the store, and composes. *)
Class Frame (R : world -> world -> Prop) : Prop := {
  frame_refl : forall w, R w w;
  frame_trans : forall a b c, R a b -> R b c -> R a c;
  frame_print : forall s w, R w (world_of (print s w));
  frame_input : forall prompt w, R w (world_of (input prompt w));
  frame_ensure : forall w, R w (world_of (ensure_csv_exists w))
}.

(** A computation whose every run, however it ends, is in the relation. *)
Definition respects (R : world -> world -> Prop) {A} (m : M A) : Prop :=
  forall w, R w (world_of (m w)).

Definition prespects (R : world -> world -> Prop) {A} (p : P A) : Prop :=
  forall w, R w (run_world (p w)).

(** The log, the output and the input move one way only: lines are added to
    the first two and taken from the third; the clock stands. *)
Definition streams (w w' : world) : Prop :=
  (exists l, log_file w' = log_file w ++ l)%list /\
  (exists l, stdout w' = stdout w ++ l)%list /\
  (exists l, stdin w = l ++ stdin w')%list /\
  now w' = now w.

(** The interchange file is what it was. *)
Definition same_json (w w' : world) : Prop := json_file w' = json_file w.

(** The store reads as it did (a store created on the way reads as the
    absent one did: no contact). *)
Definition same_store (w w' : world) : Prop := store_rows w' = store_rows w.

(** The store file is what it was or has the form [write_contacts] gives
    it. *)
Definition same_or_formed (w w' : world) : Prop :=
  csv_file w' = csv_file w \/ well_formed (csv_file w').

(** Nothing is written at all: store, interchange file and log are what
    they were. *)
Definition silent (w w' : world) : Prop :=
  same_store w w' /\ same_json w w' /\ log_file w' = log_file w.

(* ----------------------------------------------------------------- *)
(** ** Frames compose *)

Section Frames.

Context {R : world -> world -> Prop} `{HF : Frame R}.

Lemma respects_ret {A} (a : A) : respects R (ret a).
Proof. intros w. apply frame_refl. Qed.

Lemma respects_raise {A} (e : exn) : respects R (@raise A e).
Proof. intros w. apply frame_refl. Qed.

Lemma respects_lift {A} (r : exn + A) : respects R (lift r).
Proof. intros w. destruct r; apply frame_refl. Qed.

Lemma respects_load (content : json_content) : respects R (Json.load content).
Proof. intros w. destruct content; apply frame_refl. Qed.

Lemma respects_print (s : string) : respects R (print s).
Proof. intros w. apply frame_print. Qed.

Lemma respects_input (prompt : string) : respects R (input prompt).
Proof. intros w. apply frame_input. Qed.

Lemma respects_ensure_csv_exists : respects R ensure_csv_exists.
Proof. intros w. apply frame_ensure. Qed.

Lemma respects_bind {A B} (m : M A) (k : A -> M B) :
  respects R m -> (forall a, respects R (k a)) -> respects R (bind m k).
Proof.
  intros Hm Hk w. unfold bind. specialize (Hm w).
  destruct (m w) as [a w1|e w1]; cbn [world_of] in *; [|exact Hm].
  exact (frame_trans _ _ _ Hm (Hk a w1)).
Qed.

Lemma respects_try {A} (m : M A) (h : exn -> M A) :
  respects R m -> (forall e, respects R (h e)) -> respects R (try_except m h).
Proof.
  intros Hm Hh w. unfold try_except. specialize (Hm w).
  destruct (m w) as [a w1|e w1]; cbn [world_of] in *; [exact Hm|].
  exact (frame_trans _ _ _ Hm (Hh e w1)).
Qed.

Lemma respects_read_contacts : respects R read_contacts.
Proof.
  unfold read_contacts. apply respects_bind; [apply respects_ensure_csv_exists|].
  intros _ w. destruct (csv_file w); [|apply frame_refl].
  rewrite world_of_lift. apply frame_refl.
Qed.

Lemma prespects_of_M {A} (m : M A) : respects R m -> prespects R (of_M m).
Proof.
  intros Hm w. unfold of_M. specialize (Hm w). now destruct (m w).
Qed.

Lemma prespects_plift {A} (r : error + A) : prespects R (plift r).
Proof. intros w. destruct r; apply frame_refl. Qed.

Lemma prespects_bind {A B} (p : P A) (k : A -> P B) :
  prespects R p -> (forall a, prespects R (k a)) -> prespects R (pbind p k).
Proof.
  intros Hp Hk w. unfold pbind. specialize (Hp w).
  destruct (p w) as [a w1|e w1]; cbn [run_world] in *; [|exact Hp].
  exact (frame_trans _ _ _ Hp (Hk a w1)).
Qed.

End Frames.

(** Sequencing, handlers and branches, down to the steps every frame
    allows; what is left is a step particular to the relation. *)
Ltac frame_step :=
  match goal with
  | |- respects _ (bind _ _) => apply respects_bind; [|intros ?]
  | |- respects _ (try_except _ _) => apply respects_try; [|intros ?]
  | |- prespects _ (pbind _ _) => apply prespects_bind; [|intros ?]
  | |- prespects _ (of_M _) => apply prespects_of_M
  | |- prespects _ (plift _) => apply prespects_plift
  | |- respects _ (ret _) => apply respects_ret
  | |- respects _ (raise _) => apply respects_raise
  | |- respects _ (lift _) => apply respects_lift
  | |- respects _ (Json.load _) => apply respects_load
  | |- respects _ (print _) => apply respects_print
  | |- respects _ (input _) => apply respects_input
  | |- respects _ read_contacts => apply respects_read_contacts
  | |- respects _ (if ?b then _ else _) => destruct b
  | |- respects _ (match ?l with [] => _ | _ :: _ => _ end) => destruct l
  | |- prespects _ (match ?l with [] => _ | _ :: _ => _ end) => destruct l
  | H : _ |- _ => solve [apply H]
  end.

Section Respect.

Context {rt : Runtime} {R : world -> world -> Prop} `{HF : Frame R}.

Lemma respects_print_found (found : list contact) :
  respects R (print_found found).
Proof.
  induction found as [|c found IH]; cbn [print_found]; repeat frame_step.
Qed.

Lemma respects_search_contact : respects R search_contact.
Proof.
  unfold search_contact. repeat frame_step; apply respects_print_found.
Qed.

Lemma prespects_print_lines (contacts : list contact) :
  prespects R (print_lines contacts).
Proof.
  induction contacts as [|c contacts IH]; cbn [print_lines].
  - intros w. apply frame_refl.
  - repeat frame_step.
Qed.

Lemma prespects_list_contacts : prespects R list_contacts.
Proof.
  unfold list_contacts. repeat frame_step; apply prespects_print_lines.
Qed.

(** The operations that write the store respect a relation that
    [write_contacts] and [write_log] respect. *)
Section Writes.

Hypothesis R_write : forall contacts, respects R (write_contacts contacts).
Hypothesis R_log : forall level msg, respects R (write_log level msg).

Lemma respects_add_contact : respects R add_contact.
Proof. unfold add_contact. repeat frame_step. Qed.

Lemma respects_update_loop (name : string) (seen rest : list contact) :
  respects R (update_loop name seen rest).
Proof.
  revert seen. induction rest as [|c rest IH]; intros seen; cbn [update_loop].
  - apply respects_print.
  - apply respects_bind; [apply respects_lift|]. intros n.
    destruct (n =? lower name); [|apply IH].
    repeat frame_step.
Qed.

Lemma respects_update_contact : respects R update_contact.
Proof.
  unfold update_contact. repeat frame_step. apply respects_update_loop.
Qed.

Lemma respects_delete_contact : respects R delete_contact.
Proof. unfold delete_contact. repeat frame_step. Qed.

Lemma respects_import_json : respects R import_json.
Proof.
  intros w. unfold import_json. destruct (json_file w) as [content|].
  - revert w. change (respects R (try_except (import_json_try content)
      (fun e => print ("Failed to import JSON: " ++ exn_str e) ;;;
                write_log "ERROR" ("Import JSON failed: " ++ exn_str e)))).
    unfold import_json_try.
    apply respects_try; [|intros e; repeat frame_step].
    apply respects_bind; [apply respects_load|]. intros v.
    destruct v; repeat frame_step.
  - apply frame_print.
Qed.

End Writes.

(** [export_json] respects a relation that [json.dump] and [write_log]
    respect. *)
Lemma respects_export_json :
  (forall contacts, respects R (Json.dump contacts)) ->
  (forall level msg, respects R (write_log level msg)) ->
  respects R export_json.
Proof. intros R_dump R_log. unfold export_json. repeat frame_step. Qed.

(** The menu respects a relation that the three writes respect. *)
Section Whole.

Hypothesis R_write : forall contacts, respects R (write_contacts contacts).
Hypothesis R_dump : forall contacts, respects R (Json.dump contacts).
Hypothesis R_log : forall level msg, respects R (write_log level msg).

Lemma prespects_dispatch (choice : string) : prespects R (dispatch choice).
Proof.
  unfold dispatch.
  repeat match goal with
         | |- prespects _ (if ?b then _ else _) => destruct b
         end;
    try apply prespects_list_contacts; apply prespects_of_M.
  - now apply respects_add_contact.
  - apply respects_search_contact.
  - now apply respects_update_contact.
  - now apply respects_delete_contact.
  - now apply respects_export_json.
  - now apply respects_import_json.
  - apply respects_print.
Qed.

Lemma menu_loop_respects (turns : nat) (w : world) (r : run unit) :
  menu_loop turns w = Some r -> R w (run_world r).
Proof.
  revert w. induction turns as [|n IH]; intros w; [discriminate|].
  cbn [menu_loop].
  assert (Hhead : prespects R (of_M (print menu_title ;;; print menu_options ;;;
                                     input "Choice: ")))
    by repeat frame_step.
  specialize (Hhead w).
  destruct (of_M _ w) as [raw w1|e w1]; cbn [run_world] in Hhead.
  - destruct (strip raw =? "8").
    + intros [= <-].
      assert (Hbye : prespects R (of_M (print "Goodbye." ;;;
                                        write_log "INFO" "Program exited")))
        by repeat frame_step.
      exact (frame_trans _ _ _ Hhead (Hbye w1)).
    + pose proof (prespects_dispatch (strip raw) w1) as Hd.
      destruct (dispatch (strip raw) w1) as [[] w2|e w2]; cbn [run_world] in Hd.
      * intros Hr. exact (frame_trans _ _ _ (frame_trans _ _ _ Hhead Hd)
                                      (IH _ Hr)).
      * intros [= <-]. exact (frame_trans _ _ _ Hhead Hd).
  - now intros [= <-].
Qed.

Lemma main_respects (w : world) (r : run unit) :
  main w = Some r -> R w (run_world r).
Proof.
  unfold main.
  assert (Hhead : prespects R (of_M (ensure_csv_exists ;;;
                                     write_log "INFO" "Program started"))).
  { repeat frame_step. apply respects_ensure_csv_exists. }
  specialize (Hhead w).
  destruct (of_M _ w) as [[] w1|e w1]; cbn [run_world] in Hhead.
  - intros Hr. exact (frame_trans _ _ _ Hhead (menu_loop_respects _ _ Hr)).
  - now intros [= <-].
Qed.

End Whole.

End Respect.

(* ----------------------------------------------------------------- *)
(** ** The frames of the program *)

Lemma streams_refl (w : world) : streams w w.
Proof.
  repeat split; try (exists []; now rewrite ?app_nil_r).
Qed.

Lemma streams_trans (a b c : world) : streams a b -> streams b c -> streams a c.
Proof.
  intros [[l1 H1] [[o1 H2] [[i1 H3] H4]]] [[l2 K1] [[o2 K2] [[i2 K3] K4]]].
  repeat split.
  - exists (l1 ++ l2)%list. now rewrite K1, H1, app_assoc.
  - exists (o1 ++ o2)%list. now rewrite K2, H2, app_assoc.
  - exists (i1 ++ i2)%list. now rewrite H3, K3, app_assoc.
  - now rewrite K4.
Qed.

Lemma streams_same (w w' : world) :
  log_file w' = log_file w -> stdout w' = stdout w -> stdin w' = stdin w ->
  now w' = now w -> streams w w'.
Proof.
  intros H1 H2 H3 H4. repeat split.
  - exists []. now rewrite app_nil_r.
  - exists []. now rewrite app_nil_r.
  - exists []. now rewrite H3.
  - exact H4.
Qed.

#[export] Instance streams_frame : Frame streams.
Proof.
  split.
  - exact streams_refl.
  - exact streams_trans.
  - intros s w. unfold streams. cbn.
    split; [exists []; now rewrite app_nil_r|].
    split; [now exists [s]|]. split; [now exists []|reflexivity].
  - intros prompt w. unfold input, streams.
    destruct (stdin w) as [|l r] eqn:E; cbn; rewrite ?E.
    + split; [exists []; now rewrite app_nil_r|].
      split; [now exists [prompt]|]. split; [now exists []|reflexivity].
    + split; [exists []; now rewrite app_nil_r|].
      split; [now exists [prompt]|]. split; [now exists [l]|reflexivity].
  - intros w. rewrite ensure_csv_exists_eq. now apply streams_same.
Qed.

#[export] Instance same_json_frame : Frame same_json.
Proof.
  split; unfold same_json.
  - reflexivity.
  - intros a b c H1 H2. now rewrite H2.
  - reflexivity.
  - intros prompt w. unfold input. now destruct (stdin w).
  - intros w. now rewrite ensure_csv_exists_eq.
Qed.

#[export] Instance same_store_frame : Frame same_store.
Proof.
  split; unfold same_store.
  - reflexivity.
  - intros a b c H1 H2. now rewrite H2.
  - reflexivity.
  - intros prompt w. unfold input. now destruct (stdin w).
  - intros w. now rewrite ensure_csv_exists_eq.
Qed.

#[export] Instance same_or_formed_frame : Frame same_or_formed.
Proof.
  split; unfold same_or_formed.
  - now left.
  - intros a b c [H1|H1] [H2|H2]; try (now right).
    + left. now rewrite H2.
    + right. now rewrite H2.
  - now left.
  - intros prompt w. left. unfold input. now destruct (stdin w).
  - exact keeps_ensure_csv_exists.
Qed.

#[export] Instance silent_frame : Frame silent.
Proof.
  split; unfold silent.
  - intros w. repeat split.
  - intros a b c [H1 [H2 H3]] [K1 [K2 K3]]. repeat split.
    + exact (frame_trans _ _ _ H1 K1).
    + exact (frame_trans _ _ _ H2 K2).
    + now rewrite K3.
  - intros s w. repeat split.
  - intros prompt w. unfold input. destruct (stdin w); repeat split.
  - intros w. rewrite ensure_csv_exists_eq. repeat split.
Qed.

Lemma streams_write_log (level msg : string) :
  respects streams (write_log level msg).
Proof.
  intros w. unfold streams. cbn.
  split; [now eexists|].
  split; [exists []; now rewrite app_nil_r|].
  split; [now exists []|reflexivity].
Qed.

Lemma streams_dump (contacts : list contact) :
  respects streams (Json.dump contacts).
Proof. intros w. now apply streams_same. Qed.

Lemma same_json_write_log (level msg : string) :
  respects same_json (write_log level msg).
Proof. intros w. reflexivity. Qed.

Lemma same_store_write_log (level msg : string) :
  respects same_store (write_log level msg).
Proof. intros w. reflexivity. Qed.

Lemma same_store_dump (contacts : list contact) :
  respects same_store (Json.dump contacts).
Proof. intros w. reflexivity. Qed.

Lemma formed_write_log (level msg : string) :
  respects same_or_formed (write_log level msg).
Proof. intros w. now left. Qed.

Lemma formed_dump (contacts : list contact) :
  respects same_or_formed (Json.dump contacts).
Proof. intros w. now left. Qed.

Lemma streams_input_length (w w' : world) :
  streams w w' -> length (stdin w') <= length (stdin w).
Proof.
  intros [_ [_ [[l H] _]]]. rewrite H, length_app. lia.
Qed.

Section Program_frames.

Context {rt : Runtime}.

Lemma writerows_only_csv (contacts : list contact) (w : world) :
  exists f, world_of (Csv.writerows FIELDNAMES contacts w) = set_csv f w.
Proof.
  revert w. induction contacts as [|c contacts IH]; intros w.
  - exists (csv_file w). cbn. now rewrite set_csv_same.
  - cbn [Csv.writerows]. unfold bind at 1, lift.
    destruct (Csv.dict_to_list FIELDNAMES c) as [e|row].
    + exists (csv_file w). cbn. now rewrite set_csv_same.
    + unfold bind at 1, Csv.writerow.
      destruct (IH (set_csv (Some ((match csv_file w with
                                    | Some rows => rows
                                    | None => []
                                    end) ++ [row])%list) w)) as [f Hf].
      exists f. rewrite Hf. reflexivity.
Qed.

Lemma write_contacts_only_csv (contacts : list contact) (w : world) :
  exists f, world_of (write_contacts contacts w) = set_csv f w.
Proof.
  unfold write_contacts, bind at 1, Csv.truncate.
  unfold bind at 1, Csv.writeheader, Csv.writerow.
  destruct (writerows_only_csv contacts
              (set_csv (Some ([] ++ [FIELDNAMES])%list) (set_csv (Some []) w)))
    as [f Hf].
  exists f. cbn [csv_file set_csv] in *. rewrite Hf. reflexivity.
Qed.

Lemma streams_write_contacts (contacts : list contact) :
  respects streams (write_contacts contacts).
Proof.
  intros w. destruct (write_contacts_only_csv contacts w) as [f ->].
  now apply streams_same.
Qed.

Lemma same_json_write_contacts (contacts : list contact) :
  respects same_json (write_contacts contacts).
Proof.
  intros w. destruct (write_contacts_only_csv contacts w) as [f Hf].
  unfold same_json. now rewrite Hf.
Qed.

(** X1.  Whatever the world and however they end, [add_contact],
    [search_contact], [update_contact], [delete_contact], [export_json],
    [import_json], [list_contacts] and the whole program only add lines to
    the log and to the output and only take lines from the input: what was
    logged or printed before stays, in place, and no line of input is read
    twice or put back. *)
Theorem streams_only_extend :
  respects streams add_contact /\
  respects streams search_contact /\
  respects streams update_contact /\
  respects streams delete_contact /\
  respects streams export_json /\
  respects streams import_json /\
  prespects streams list_contacts /\
  (forall w r, main w = Some r -> streams w (run_world r)).
Proof.
  split; [exact (respects_add_contact streams_write_contacts streams_write_log)|].
  split; [exact respects_search_contact|].
  split; [exact (respects_update_contact streams_write_contacts streams_write_log)|].
  split; [exact (respects_delete_contact streams_write_contacts streams_write_log)|].
  split; [exact (respects_export_json streams_dump streams_write_log)|].
  split; [exact (respects_import_json streams_write_contacts streams_write_log)|].
  split; [exact prespects_list_contacts|].
  exact (main_respects streams_write_contacts streams_dump streams_write_log).
Qed.

(** X2.  [search_contact] and [list_contacts] write nothing, in any world
    and however they end: the store reads as it did, the interchange file
    and the log are what they were.  [export_json] leaves the store reading
    as it did. *)
Theorem reading_operations_write_nothing :
  respects silent search_contact /\
  prespects silent list_contacts /\
  respects same_store export_json.
Proof.
  split; [exact respects_search_contact|].
  split; [exact prespects_list_contacts|].
  exact (respects_export_json same_store_dump same_store_write_log).
Qed.

(** X3.  Only [export_json] writes the interchange file: [add_contact],
    [update_contact], [delete_contact] and [import_json] leave it as it
    was, in any world and however they end. *)
Theorem interchange_file_only_exported :
  respects same_json add_contact /\
  respects same_json update_contact /\
  respects same_json delete_contact /\
  respects same_json import_json.
Proof.
  split; [exact (respects_add_contact same_json_write_contacts same_json_write_log)|].
  split; [exact (respects_update_contact same_json_write_contacts same_json_write_log)|].
  split; [exact (respects_delete_contact same_json_write_contacts same_json_write_log)|].
  exact (respects_import_json same_json_write_contacts same_json_write_log).
Qed.

(* ----------------------------------------------------------------- *)
(** ** The menu ends *)

Lemma menu_head (w : world) :
  of_M (print menu_title ;;; print menu_options ;;; input "Choice: ") w
  = match stdin w with
    | [] => Crash (Op EOFError)
              (set_stdout (stdout w ++ [menu_title; menu_options; "Choice: "])%list w)
    | raw :: rest =>
        Done raw (set_stdin rest
                    (set_stdout (stdout w ++ [menu_title; menu_options;
                                              "Choice: "])%list w))
    end.
Proof.
  unfold of_M, bind, print, input. cbn.
  destruct (stdin w); cbn; now rewrite <- !app_assoc.
Qed.

Lemma dispatch_streams (choice : string) (w : world) :
  streams w (run_world (dispatch choice w)).
Proof.
  exact (prespects_dispatch streams_write_contacts streams_dump
                            streams_write_log choice w).
Qed.

Lemma menu_loop_enough (turns : nat) (w : world) :
  length (stdin w) < turns -> exists r, menu_loop turns w = Some r.
Proof.
  revert w. induction turns as [|n IH]; intros w Hlen; [lia|].
  cbn [menu_loop]. rewrite menu_head.
  destruct (stdin w) as [|raw rest] eqn:E; [now eexists|].
  destruct (strip raw =? "8"); [now eexists|].
  set (w1 := set_stdin rest _).
  pose proof (streams_input_length (dispatch_streams (strip raw) w1)) as Hd.
  destruct (dispatch (strip raw) w1) as [[] w2|e w2]; [|now eexists].
  apply IH. cbn in Hd, Hlen. lia.
Qed.




(** X5.  The program ends on every input.  When it has ended, normally or
    not, the store file exists; the first line it added to the log is the
    INFO line [Program started]; and a store file that was absent or in the
    form of header and three-field records at the start is in that form at
    the end. *)
Theorem main_ends (w : world) :
  exists r,
    main w = Some r /\
    csv_file (run_world r) <> None /\
    (exists lg, log_file (run_world r)
                = (log_file w
                   ++ log_line (now w) "INFO" "Program started" :: lg)%list) /\
    (csv_file w = None \/ well_formed (csv_file w) ->
     well_formed (csv_file (run_world r))).
Proof.
  unfold main.
  assert (Hhead : of_M (ensure_csv_exists ;;; write_log "INFO" "Program started") w
                  = Done tt (set_log (log_file w
                                      ++ [log_line (now w) "INFO" "Program started"])%list
                               (set_csv (Some (store_rows w)) w))).
  { unfold of_M, bind. now rewrite ensure_csv_exists_eq. }
  rewrite Hhead. set (w1 := set_log _ _).
  destruct (@menu_loop_enough (S (length (stdin w1))) w1) as [r Hr]; [lia|].
  exists r. split; [exact Hr|].
  pose proof (menu_loop_respects keeps_write_contacts formed_dump
                                 formed_write_log _ _ Hr) as Hform.
  pose proof (menu_loop_respects streams_write_contacts streams_dump
                                 streams_write_log _ _ Hr) as [[lg Hlog] _].
  split; [|split].
  - destruct Hform as [E|[cs E]]; rewrite E; discriminate.
  - exists lg. rewrite Hlog. cbn. now rewrite <- app_assoc.
  - intros Hw. destruct Hform as [E|F]; [|exact F]. rewrite E. cbn.
    unfold store_rows. destruct Hw as [Hn|[cs Hc]].
    + rewrite Hn. now exists [].
    + rewrite Hc. now exists cs.
Qed.

(** X6.  A choice that is, after trimming, none of [1] to [8] changes no
    file and logs nothing: [menu] prints the message about the invalid
    choice and goes on with the next line of input. *)
Theorem menu_invalid_choice
        (turns : nat) (w : world) (raw : string) (rest : list string) :
  stdin w = raw :: rest ->
  ~ In (strip raw) ["1"; "2"; "3"; "4"; "5"; "6"; "7"; "8"] ->
  menu_loop (S turns) w
  = menu_loop turns
      {| csv_file := csv_file w; json_file := json_file w;
         log_file := log_file w; stdin := rest;
         stdout := (stdout w ++ [menu_title; menu_options; "Choice: ";
                                 "Invalid choice. Enter a number 1-8."])%list;
         now := now w |}.
Proof.
  intros Hin Hno. cbn [menu_loop]. rewrite menu_head, Hin.
  assert (Hne : forall c, In c ["1"; "2"; "3"; "4"; "5"; "6"; "7"; "8"] ->
                          (strip raw =? c) = false).
  { intros c Hc. apply String.eqb_neq. intros E. rewrite E in Hno.
    contradiction. }
  cbv zeta. rewrite (Hne "8") by (cbn; tauto).
  unfold dispatch.
  rewrite (Hne "1"), (Hne "2"), (Hne "3"), (Hne "4"), (Hne "5"), (Hne "6"),
    (Hne "7") by (cbn; tauto).
  cbn. now rewrite <- app_assoc.
Qed.

End Program_frames.

Lemma menu_invalid_choice_witness :
  let w := demo_world None None [" 9 "; "8"] in
  stdin w = [" 9 "; "8"] /\
  ~ In (strip " 9 ") ["1"; "2"; "3"; "4"; "5"; "6"; "7"; "8"] /\
  menu_loop 3 w
  = menu_loop 2
      {| csv_file := None; json_file := None; log_file := []; stdin := ["8"];
         stdout := [menu_title; menu_options; "Choice: ";
                    "Invalid choice. Enter a number 1-8."];
         now := now w |}.
Proof.
  intros w.
  assert (H1 : stdin w = [" 9 "; "8"]) by reflexivity.
  assert (H2 : ~ In (strip " 9 ") ["1"; "2"; "3"; "4"; "5"; "6"; "7"; "8"]).
  { cbn. intros H. repeat (destruct H as [H|H]; [discriminate|]). exact H. }
  split; [exact H1|]. split; [exact H2|].
  exact (@menu_invalid_choice _ 2 w " 9 " ["8"] H1 H2).
Defined.

(* ================================================================= *)
(** ** Listing *)

Lemma char_length_append (s t : string) :
  char_length (s ++ t) = char_length s + char_length t.
Proof.
  induction s as [|c s IH]; cbn [append char_length]; [reflexivity|].
  destruct (is_continuation c); now rewrite IH.
Qed.

Lemma char_length_spaces (n : nat) : char_length (spaces n) = n.
Proof. induction n as [|n IH]; cbn; [reflexivity | now rewrite IH]. Qed.

Lemma char_length_take_le (n : nat) (s : string) :
  char_length (take_chars n s) <= n.
Proof.
  revert n. induction s as [|c s IH]; intros n; cbn [take_chars]; [cbn; lia|].
  destruct (is_continuation c) eqn:Ec.
  - cbn [char_length]. rewrite Ec. apply IH.
  - destruct n as [|m]; [cbn; lia|].
    cbn [char_length]. rewrite Ec. specialize (IH m). lia.
Qed.

Lemma take_chars_short (n : nat) (s : string) :
  char_length s <= n -> take_chars n s = s.
Proof.
  revert n. induction s as [|c s IH]; intros n; cbn [take_chars char_length];
    [reflexivity|].
  destruct (is_continuation c).
  - intros H. now rewrite IH.
  - destruct n as [|m]; [lia|]. intros H. rewrite IH; [reflexivity | lia].
Qed.

Lemma char_length_ljust (width : nat) (s : string) :
  char_length s <= width -> char_length (ljust width s) = width.
Proof.
  intros H. unfold ljust. rewrite char_length_append, char_length_spaces. lia.
Qed.

Lemma list_line_contact_of (c : entry) :
  list_line (contact_of c) = inr (list_entry_line c).
Proof. reflexivity. Qed.

Lemma char_length_list_entry_line (c : entry) :
  char_length (list_entry_line c) = 82.
Proof.
  unfold list_entry_line.
  rewrite !char_length_append, !char_length_ljust.
  - reflexivity.
  - pose proof (char_length_take_le 29 (email_of c)). lia.
  - pose proof (char_length_take_le 19 (phone_of c)). lia.
  - pose proof (char_length_take_le 29 (name_of c)). lia.
Qed.

Lemma print_lines_entries (l : list entry) (w : world) :
  print_lines (map contact_of l) w
  = Done tt (set_stdout (stdout w ++ map list_entry_line l)%list w).
Proof.
  revert w. induction l as [|c l IH]; intros w.
  - cbn. rewrite app_nil_r. now destruct w.
  - cbn [map print_lines]. unfold pbind at 1, plift.
    rewrite list_line_contact_of. unfold pbind at 1, of_M, print.
    rewrite IH. cbn. now rewrite <- app_assoc.
Qed.

(** X7.  On a store holding [cs], [list_contacts] returns normally and
    writes nothing.  For no contact it prints that none was found;
    otherwise the header, a rule of 80 dashes, one line per contact in the
    order of the file and the total.  A line shows at most the first 29, 19
    and 29 characters of name, phone and email, padded to columns of 30, 20
    and 30: it is 82 characters wide whatever the contact, and shows a field
    in full when it fits. *)
Theorem list_contacts_prints (w : world) (cs : list entry) :
  stored w cs ->
  list_contacts w
  = Done tt
      {| csv_file := Some (store_rows w);
         json_file := json_file w;
         log_file := log_file w;
         stdin := stdin w;
         stdout := (stdout w ++
                    match cs with
                    | [] => ["No contacts found."]
                    | _ => list_header :: dashes 80
                           :: map list_entry_line cs
                           ++ [(nl ++ "Total: " ++ of_nat (length cs))%string]
                    end)%list;
         now := now w |} /\
  Forall (fun c => char_length (list_entry_line c) = 82) cs /\
  (forall c, In c cs ->
     char_length (name_of c) <= 29 ->
     char_length (phone_of c) <= 19 ->
     char_length (email_of c) <= 29 ->
     list_entry_line c
     = ljust 30 (name_of c) ++ " " ++ ljust 20 (phone_of c) ++ " "
       ++ ljust 30 (email_of c)).
Proof.
  intros Hst. split; [|split].
  - unfold list_contacts, pbind at 1, of_M at 1.
    rewrite (read_contacts_value Hst).
    destruct cs as [|c cs]; [reflexivity|].
    cbn [map].
    change (contact_of c :: map contact_of cs) with (map contact_of (c :: cs)).
    unfold pbind at 1. cbn [of_M bind print].
    unfold pbind at 1. rewrite print_lines_entries.
    cbn. rewrite !length_map. now rewrite <- !app_assoc.
  - apply Forall_forall. intros c _. apply char_length_list_entry_line.
  - intros c _ Hn Hp He. unfold list_entry_line.
    now rewrite !take_chars_short by assumption.
Qed.

Lemma list_contacts_prints_witness :
  let w := demo_world (Some [FIELDNAMES; [zoe; "1"; "a@x"];
                             ["Bartholomew Fitzgerald-Montgomery III";
                              "2"; "b@x"]]) None ["8"] in
  let cs := [(zoe, "1", "a@x");
             ("Bartholomew Fitzgerald-Montgomery III", "2", "b@x")] in
  stored w cs /\
  list_contacts w
  = Done tt
      {| csv_file := csv_file w; json_file := None; log_file := [];
         stdin := ["8"];
         stdout := [list_header; dashes 80;
                    (zoe ++ spaces 27 ++ " " ++ ljust 20 "1" ++ " "
                     ++ ljust 30 "a@x")%string;
                    (ljust 30 "Bartholomew Fitzgerald-Montgo" ++ " "
                     ++ ljust 20 "2" ++ " " ++ ljust 30 "b@x")%string;
                    (nl ++ "Total: 2")%string];
         now := now w |} /\
  Forall (fun c => char_length (list_entry_line c) = 82) cs /\
  (forall c, In c cs ->
     char_length (name_of c) <= 29 ->
     char_length (phone_of c) <= 19 ->
     char_length (email_of c) <= 29 ->
     list_entry_line c
     = ljust 30 (name_of c) ++ " " ++ ljust 20 (phone_of c) ++ " "
       ++ ljust 30 (email_of c)).
Proof.
  intros w cs.
  assert (H0 : stored w cs) by reflexivity.
  split; [exact H0|].
  exact (@list_contacts_prints w cs H0).
Defined.

Lemma dicts_app (fieldnames : list string) (rows1 rows2 : list (list string)) :
  Csv.dicts (fieldnames :: rows1 ++ rows2)
  = (Csv.dicts (fieldnames :: rows1) ++ Csv.dicts (fieldnames :: rows2))%list.
Proof. cbn [Csv.dicts]. now rewrite filter_app, map_app. Qed.

Lemma dicts_cons (fieldnames row : list string) (rest : list (list string)) :
  row <> [] ->
  Csv.dicts (fieldnames :: row :: rest)
  = Csv.row_to_dict fieldnames row :: Csv.dicts (fieldnames :: rest).
Proof. intros H. cbn [Csv.dicts filter]. now destruct row. Qed.

Lemma dicts_nonblank (fieldnames : list string) (rows : list (list string)) :
  Forall (fun r => r <> []) rows ->
  Csv.dicts (fieldnames :: rows) = map (Csv.row_to_dict fieldnames) rows.
Proof.
  intros H. cbn [Csv.dicts]. f_equal.
  apply filter_keeps_all. intros r Hr.
  rewrite Forall_forall in H. specialize (H r Hr). now destruct r.
Qed.

Lemma list_line_short_row (row : list string) :
  row <> [] -> length row < 3 ->
  list_line (Csv.row_to_dict FIELDNAMES row)
  = inl (TypeError "'NoneType' object is not subscriptable").
Proof.
  intros Hne Hlen.
  destruct row as [|a [|b [|c row]]]; [contradiction| | |cbn in Hlen; lia];
    reflexivity.
Qed.

Lemma print_lines_short_row
      (pre : list entry) (row : list string) (tail : list contact) (w : world) :
  row <> [] -> length row < 3 ->
  print_lines (map contact_of pre ++ Csv.row_to_dict FIELDNAMES row :: tail)%list w
  = Crash (TypeError "'NoneType' object is not subscriptable")
          (set_stdout (stdout w ++ map list_entry_line pre)%list w).
Proof.
  intros Hne Hlen. revert w. induction pre as [|c pre IH]; intros w.
  - cbn [map app print_lines]. unfold pbind, plift.
    rewrite (list_line_short_row Hne Hlen). cbn.
    rewrite app_nil_r. now destruct w.
  - cbn [map app print_lines]. unfold pbind at 1, plift.
    rewrite list_line_contact_of. unfold pbind at 1, of_M, print.
    rewrite IH. cbn. now rewrite <- app_assoc.
Qed.

(** X8.  When the store file, one whose fields are read as written, has
    the header [Name,Phone,Email] and, after the records of the contacts
    [pre], a record that is not blank and has fewer than three fields,
    [list_contacts] ends with a [TypeError]: it has printed the header, the
    rule and the lines of [pre], and neither the record nor anything after
    it.  Nothing is written. *)
Theorem list_contacts_short_row
        (w : world) (pre : list entry) (row : list string)
        (rest : list (list string)) :
  csv_file w = Some (FIELDNAMES :: map row_of pre ++ row :: rest) ->
  readable (FIELDNAMES :: map row_of pre ++ row :: rest) ->
  row <> [] ->
  length row < 3 ->
  list_contacts w
  = Crash (TypeError "'NoneType' object is not subscriptable")
      {| csv_file := csv_file w;
         json_file := json_file w;
         log_file := log_file w;
         stdin := stdin w;
         stdout := (stdout w ++ list_header :: dashes 80
                    :: map list_entry_line pre)%list;
         now := now w |}.
Proof.
  intros Hfile Hread Hne Hlen.
  unfold list_contacts, pbind at 1, of_M at 1.
  rewrite read_contacts_readable by (unfold store_rows; now rewrite Hfile).
  unfold store_rows. rewrite Hfile.
  rewrite dicts_app, dicts_rows, (dicts_cons _ _ Hne).
  set (tail := Csv.dicts (FIELDNAMES :: rest)).
  pose proof (fun w0 => print_lines_short_row pre tail w0 Hne Hlen) as Hlines.
  destruct (map contact_of pre ++ Csv.row_to_dict FIELDNAMES row :: tail)%list
    as [|c0 l0] eqn:E; [now destruct pre|].
  unfold pbind at 1. cbn [of_M bind print].
  unfold pbind at 1. rewrite Hlines. cbn.
  rewrite <- Hfile. now rewrite <- !app_assoc.
Qed.

Lemma list_contacts_short_row_witness :
  let w := demo_world (Some [FIELDNAMES; ["Ann"; "1"; "a@x"]; ["Bob"; "2"];
                             ["Cy"; "3"; "c@x"]]) None [] in
  csv_file w = Some (FIELDNAMES :: map row_of [("Ann", "1", "a@x")]
                                ++ ["Bob"; "2"] :: [["Cy"; "3"; "c@x"]]) /\
  readable (FIELDNAMES :: map row_of [("Ann", "1", "a@x")]
                       ++ ["Bob"; "2"] :: [["Cy"; "3"; "c@x"]]) /\
  ["Bob"; "2"] <> [] /\
  length ["Bob"; "2"] < 3 /\
  list_contacts w
  = Crash (TypeError "'NoneType' object is not subscriptable")
      {| csv_file := csv_file w; json_file := None; log_file := [];
         stdin := [];
         stdout := [list_header; dashes 80;
                    list_entry_line ("Ann", "1", "a@x")];
         now := now w |}.
Proof.
  intros w.
  assert (H1 : csv_file w = Some (FIELDNAMES :: map row_of [("Ann", "1", "a@x")]
                                  ++ ["Bob"; "2"] :: [["Cy"; "3"; "c@x"]]))
    by reflexivity.
  assert (Hr : readable (FIELDNAMES :: map row_of [("Ann", "1", "a@x")]
                                    ++ ["Bob"; "2"] :: [["Cy"; "3"; "c@x"]]))
    by (repeat constructor).
  assert (H2 : ["Bob"; "2"] <> (@nil string)) by discriminate.
  assert (H3 : length ["Bob"; "2"] < 3) by (cbn; lia).
  split; [exact H1|]. split; [exact Hr|]. split; [exact H2|].
  split; [exact H3|].
  exact (@list_contacts_short_row w [("Ann", "1", "a@x")] ["Bob"; "2"]
           [["Cy"; "3"; "c@x"]] H1 Hr H2 H3).
Defined.

(* ================================================================= *)
(** ** How the operations compose *)

Section Compositions.

Context {rt : Runtime}.

(** X9.  On a store holding [cs] in which no contact has the trimmed target
    as its name, [update_contact] reports that the contact was not found
    and stops there: it has read the one line of the target and leaves the
    lines after it unread, writes no file and logs nothing. *)
Theorem update_contact_not_found
        (w : world) (cs : list entry) (raw : string) (more : list string) :
  stored w cs ->
  stdin w = raw :: more ->
  (forall c, In c cs -> lower (name_of c) <> lower (strip raw)) ->
  update_contact w
  = Ok tt
      {| csv_file := Some (store_rows w);
         json_file := json_file w;
         log_file := log_file w;
         stdin := more;
         stdout := (stdout w ++ ["Enter exact name to update: ";
                                 "Contact not found."])%list;
         now := now w |}.
Proof.
  intros Hst Hin Hno. unfold update_contact.
  read_line. read_store Hst.
  rewrite update_loop_miss.
  - finish_run.
  - apply Forall_forall. intros c Hc. apply same_name_false. now apply Hno.
Qed.

(** X10.  On a store holding [cs], with any two answers, [update_contact]
    rewrites the first contact whose name matches the trimmed target: a
    blank answer keeps the phone or the email, another one replaces it with
    its trimmed text.  The names and the number of the contacts stay as
    they were.  Also when both answers are blank, so that the file holds
    [cs] as before, the file is rewritten and the INFO line is logged, with
    the target as entered. *)
Theorem update_contact_answers
        (w : world) (cs : list entry)
        (raw raw_phone raw_email : string) (more : list string) :
  stored w cs ->
  stdin w = raw :: raw_phone :: raw_email :: more ->
  (exists c, In c cs /\ lower (name_of c) = lower (strip raw)) ->
  exists pre c post,
    cs = (pre ++ c :: post)%list /\
    Forall (fun x => lower (name_of x) <> lower (strip raw)) pre /\
    lower (name_of c) = lower (strip raw) /\
    update_contact w
    = Ok tt
        {| csv_file := Some (FIELDNAMES ::
                             map row_of (pre ++ updated c raw_phone raw_email
                                             :: post));
           json_file := json_file w;
           log_file := (log_file w
                        ++ [log_line (now w) "INFO"
                                     ("Updated contact: " ++ strip raw)])%list;
           stdin := more;
           stdout := (stdout w ++ ["Enter exact name to update: ";
                                   ("Current phone: " ++ phone_of c)%string;
                                   "New phone (leave blank to keep): ";
                                   "New email (leave blank to keep): ";
                                   "Contact updated."])%list;
           now := now w |} /\
    map name_of (pre ++ updated c raw_phone raw_email :: post) = map name_of cs /\
    (blank raw_phone -> blank raw_email -> updated c raw_phone raw_email = c).
Proof.
  intros Hst Hin Hex.
  destruct (first_match_split (same_name (strip raw)) cs)
    as [pre [c [post [Hcs [Hpre Hc]]]]].
  { destruct Hex as [c [Hc1 Hc2]]. exists c. split; [exact Hc1|].
    now apply same_name_iff. }
  exists pre, c, post.
  split; [exact Hcs|]. split.
  { apply Forall_impl with (2 := Hpre). intros x Hf. now apply same_name_false. }
  split; [now apply same_name_iff in Hc|].
  split; [|split].
  - rewrite Hcs in Hst.
    exact (@update_contact_run _ w pre post c raw raw_phone raw_email more
             Hst Hin Hpre Hc).
  - rewrite Hcs, !map_app. reflexivity.
  - intros Hb1 Hb2. unfold updated, answer, blank in *.
    rewrite Hb1, Hb2. cbn. now destruct c as [[n p] e].
Qed.

(** X11.  Deleting the same name twice: on a store holding [cs], after
    [delete_contact] a second [delete_contact] whose target is the same name,
    case-insensitively, finds no contact.  It reports that the contact was
    not found and leaves the store file and the log as the first one left
    them. *)
Theorem delete_contact_twice
        (w : world) (cs : list entry) (raw raw' : string) (more : list string) :
  stored w cs ->
  stdin w = raw :: raw' :: more ->
  lower (strip raw') = lower (strip raw) ->
  exists w1,
    delete_contact w = Ok tt w1 /\
    stored w1 (filter (fun c => negb (same_name (strip raw) c)) cs) /\
    delete_contact w1
    = Ok tt
        {| csv_file := csv_file w1;
           json_file := json_file w1;
           log_file := log_file w1;
           stdin := more;
           stdout := (stdout w1 ++ ["Enter exact name to delete: ";
                                    "Contact not found."])%list;
           now := now w1 |}.
Proof.
  intros Hst Hin Hsame.
  rewrite (delete_contact_run Hst Hin).
  eexists. split; [reflexivity|].
  set (kept := filter (fun c => negb (same_name (strip raw) c)) cs).
  set (w1 := if existsb (same_name (strip raw)) cs then _ else _).
  assert (Hcsv : csv_file w1 = Some (store_rows w1) /\ stored w1 kept /\
                 stdin w1 = raw' :: more).
  { unfold w1. destruct (existsb (same_name (strip raw)) cs) eqn:Ex.
    - split; [reflexivity|]. split; [|reflexivity].
      apply stored_rows; [reflexivity|].
      apply Forall_filter, (stored_storable Hst).
    - split; [reflexivity|]. split; [|reflexivity].
      unfold kept. rewrite filter_keeps_all.
      + eapply stored_same_rows; [exact Hst | reflexivity].
      + intros c Hc. now rewrite (existsb_none _ _ _ Ex Hc). }
  destruct Hcsv as [Hcsv [Hst1 Hin1]].
  split; [exact Hst1|].
  rewrite (delete_contact_run Hst1 Hin1).
  assert (Hno : existsb (same_name (strip raw')) kept = false).
  { unfold kept.
    rewrite (existsb_pointwise _ (same_name (strip raw)))
      by (intros c; now apply same_name_lower).
    apply existsb_filter_negb. }
  rewrite Hno, Hcsv. reflexivity.
Qed.

(** X12.  A contact just added is found: on a store holding [cs], after
    [add_contact] with three non-blank fields that the store file gives
    back as written, [search_contact] with a term that occurs, trimmed and
    lowercased, in the lowercased new name prints the matches among [cs]
    and then, last, the new contact. *)
Theorem add_then_search_finds
        (w : world) (cs : list entry) (name phone email term : string)
        (more : list string) :
  stored w cs ->
  stdin w = name :: phone :: email :: term :: more ->
  ~ blank name -> ~ blank phone -> ~ blank email ->
  storable (strip name) -> storable (strip phone) -> storable (strip email) ->
  (exists pre post, lower (strip name) = pre ++ lower (strip term) ++ post) ->
  exists w1,
    add_contact w = Ok tt w1 /\
    search_contact w1
    = Ok tt
        {| csv_file := csv_file w1;
           json_file := json_file w1;
           log_file := log_file w1;
           stdin := more;
           stdout := (stdout w1 ++ "Enter name to search: " ::
                      map show_entry
                          (filter (name_has (lower (strip term))) cs)
                      ++ [show_entry (strip name, strip phone, strip email)])%list;
           now := now w1 |}.
Proof.
  intros Hst Hin Hn Hp He Sn Sp Se Hsub.
  rewrite (add_contact_run Hst Hin Hn Hp He).
  eexists. split; [reflexivity|].
  set (added := (strip name, strip phone, strip email) : entry).
  set (w1 := {| csv_file := _ |}).
  assert (Hst1 : stored w1 (cs ++ [added])).
  { apply stored_rows; [reflexivity|].
    apply entry_storable_app; [exact (stored_storable Hst)|].
    constructor; [exact (conj Sn (conj Sp Se)) | constructor]. }
  rewrite (search_contact_run (w := w1) (more := more) Hst1 eq_refl).
  assert (Hhas : name_has (lower (strip term)) added = true).
  { unfold name_has. now apply contains_iff. }
  rewrite (@filter_snoc_true entry _ cs added Hhas).
  destruct (filter (name_has (lower (strip term))) cs) as [|c l];
    [reflexivity|].
  cbn [app map]. now rewrite map_app.
Qed.

(** X13.  Adding a contact and then deleting its name: on a store holding
    [cs], after [add_contact] with three non-blank fields that the store
    file gives back as written, [delete_contact] with the new name as
    target, in any case of the letters, removes the new contact and with it
    every contact of [cs] of that name.  When no contact of [cs] had the
    name, the store holds [cs] again. *)
Theorem add_then_delete
        (w : world) (cs : list entry) (name phone email raw : string)
        (more : list string) :
  stored w cs ->
  stdin w = name :: phone :: email :: raw :: more ->
  ~ blank name -> ~ blank phone -> ~ blank email ->
  storable (strip name) -> storable (strip phone) -> storable (strip email) ->
  lower (strip raw) = lower (strip name) ->
  exists w1 w2,
    add_contact w = Ok tt w1 /\
    delete_contact w1 = Ok tt w2 /\
    csv_file w2
    = Some (FIELDNAMES ::
            map row_of (filter (fun c => negb (same_name (strip name) c)) cs)) /\
    stdin w2 = more /\
    ((forall c, In c cs -> lower (name_of c) <> lower (strip name)) ->
     stored w2 cs).
Proof.
  intros Hst Hin Hn Hp He Sn Sp Se Hsame.
  rewrite (add_contact_run Hst Hin Hn Hp He).
  eexists. eexists. split; [reflexivity|].
  set (added := (strip name, strip phone, strip email) : entry).
  set (w1 := {| csv_file := _ |}).
  assert (Hst1 : stored w1 (cs ++ [added])).
  { apply stored_rows; [reflexivity|].
    apply entry_storable_app; [exact (stored_storable Hst)|].
    constructor; [exact (conj Sn (conj Sp Se)) | constructor]. }
  rewrite (delete_contact_run (w := w1) (more := more) Hst1 eq_refl).
  assert (Hadded : same_name (strip raw) added = true).
  { unfold same_name. cbn. rewrite Hsame. apply String.eqb_refl. }
  assert (Hex : existsb (same_name (strip raw)) (cs ++ [added]) = true).
  { rewrite existsb_app. cbn [existsb]. rewrite Hadded. cbn [orb].
    apply orb_true_r. }
  rewrite Hex.
  rewrite filter_snoc_false by now rewrite Hadded.
  rewrite (filter_ext _ (fun c => negb (same_name (strip name) c)))
    by (intros c; now rewrite (@same_name_lower _ _ _ c Hsame)).
  split; [reflexivity|]. cbn. split; [reflexivity|]. split; [reflexivity|].
  intros Hfresh. apply stored_rows; [|exact (stored_storable Hst)]. cbn.
  rewrite filter_keeps_all; [reflexivity|].
  intros c Hc. apply negb_true_iff, same_name_false. now apply Hfresh.
Qed.

End Compositions.

Lemma update_contact_not_found_witness :
  let w := demo_world (Some [FIELDNAMES; ["Ann"; "1"; "a@x"]]) None
                      ["Bob"; "555"; "new@x"] in
  let cs := [("Ann", "1", "a@x")] in
  stored w cs /\
  (forall c, In c cs -> lower (name_of c) <> lower (strip "Bob")) /\
  update_contact w
  = Ok tt
      {| csv_file := csv_file w; json_file := None; log_file := [];
         stdin := ["555"; "new@x"];
         stdout := ["Enter exact name to update: "; "Contact not found."];
         now := now w |}.
Proof.
  intros w cs.
  assert (H0 : stored w cs) by reflexivity.
  assert (H1 : forall c, In c cs -> lower (name_of c) <> lower (strip "Bob")).
  { intros c [<-|[]]. discriminate. }
  split; [exact H0|]. split; [exact H1|].
  exact (@update_contact_not_found _ w cs "Bob" ["555"; "new@x"] H0 eq_refl H1).
Defined.

Lemma update_contact_answers_witness :
  let w := demo_world (Some [FIELDNAMES; ["Ann"; "1"; "a@x"];
                             ["Bob"; "2"; "b@x"]])
                      None [" BOB "; " 555 "; "  "; "8"] in
  let cs := [("Ann", "1", "a@x"); ("Bob", "2", "b@x")] in
  stored w cs /\
  (exists c, In c cs /\ lower (name_of c) = lower (strip " BOB ")) /\
  exists pre c post,
    cs = (pre ++ c :: post)%list /\
    Forall (fun x => lower (name_of x) <> "bob") pre /\
    lower (name_of c) = "bob" /\
    update_contact w
    = Ok tt
        {| csv_file := Some (FIELDNAMES ::
                             map row_of (pre ++ updated c " 555 " "  " :: post));
           json_file := None;
           log_file := [log_line (now w) "INFO" "Updated contact: BOB"];
           stdin := ["8"];
           stdout := ["Enter exact name to update: ";
                      ("Current phone: " ++ phone_of c)%string;
                      "New phone (leave blank to keep): ";
                      "New email (leave blank to keep): ";
                      "Contact updated."];
           now := now w |} /\
    map name_of (pre ++ updated c " 555 " "  " :: post) = map name_of cs /\
    (blank " 555 " -> blank "  " -> updated c " 555 " "  " = c).
Proof.
  intros w cs.
  assert (H0 : stored w cs) by reflexivity.
  assert (H1 : exists c, In c cs /\ lower (name_of c) = lower (strip " BOB ")).
  { exists ("Bob", "2", "b@x"). split; [right; left; reflexivity | reflexivity]. }
  split; [exact H0|]. split; [exact H1|].
  exact (@update_contact_answers _ w cs " BOB " " 555 " "  " ["8"] H0 eq_refl H1).
Defined.

Lemma delete_contact_twice_witness :
  let w := demo_world (Some [FIELDNAMES; ["Ann"; "1"; "a@x"];
                             ["Bob"; "2"; "b@x"]])
                      None ["bob"; " BOB "; "8"] in
  let cs := [("Ann", "1", "a@x"); ("Bob", "2", "b@x")] in
  stored w cs /\
  lower (strip " BOB ") = lower (strip "bob") /\
  exists w1,
    delete_contact w = Ok tt w1 /\
    stored w1 [("Ann", "1", "a@x")] /\
    delete_contact w1
    = Ok tt
        {| csv_file := csv_file w1;
           json_file := json_file w1;
           log_file := log_file w1;
           stdin := ["8"];
           stdout := (stdout w1 ++ ["Enter exact name to delete: ";
                                    "Contact not found."])%list;
           now := now w1 |}.
Proof.
  intros w cs.
  assert (H0 : stored w cs) by reflexivity.
  assert (H1 : lower (strip " BOB ") = lower (strip "bob")) by reflexivity.
  split; [exact H0|]. split; [exact H1|].
  exact (@delete_contact_twice _ w cs "bob" " BOB " ["8"] H0 eq_refl H1).
Defined.

Lemma add_then_search_finds_witness :
  let w := demo_world (Some [FIELDNAMES; ["Ann"; "1"; "a@x"];
                             ["Bo"; "2"; "b@x"]])
                      None [" Bob "; "3"; "c@x"; "BO"; "8"] in
  let cs := [("Ann", "1", "a@x"); ("Bo", "2", "b@x")] in
  stored w cs /\
  ~ blank " Bob " /\ ~ blank "3" /\ ~ blank "c@x" /\
  storable (strip " Bob ") /\ storable (strip "3") /\ storable (strip "c@x") /\
  (exists pre post, lower (strip " Bob ") = pre ++ lower (strip "BO") ++ post) /\
  exists w1,
    add_contact w = Ok tt w1 /\
    search_contact w1
    = Ok tt
        {| csv_file := csv_file w1;
           json_file := json_file w1;
           log_file := log_file w1;
           stdin := ["8"];
           stdout := (stdout w1 ++ ["Enter name to search: ";
                                    show_entry ("Bo", "2", "b@x");
                                    show_entry ("Bob", "3", "c@x")])%list;
           now := now w1 |}.
Proof.
  intros w cs.
  assert (H0 : stored w cs) by reflexivity.
  assert (H1 : ~ blank " Bob ") by (unfold blank; vm_compute; discriminate).
  assert (H2 : ~ blank "3") by (unfold blank; vm_compute; discriminate).
  assert (H3 : ~ blank "c@x") by (unfold blank; vm_compute; discriminate).
  assert (S1 : storable (strip " Bob ")) by (split; reflexivity).
  assert (S2 : storable (strip "3")) by (split; reflexivity).
  assert (S3 : storable (strip "c@x")) by (split; reflexivity).
  assert (H4 : exists pre post,
             lower (strip " Bob ") = pre ++ lower (strip "BO") ++ post)
    by (exists "", "b"; reflexivity).
  split; [exact H0|]. split; [exact H1|]. split; [exact H2|].
  split; [exact H3|]. split; [exact S1|]. split; [exact S2|].
  split; [exact S3|]. split; [exact H4|].
  exact (@add_then_search_finds _ w cs " Bob " "3" "c@x" "BO" ["8"]
           H0 eq_refl H1 H2 H3 S1 S2 S3 H4).
Defined.

Lemma add_then_delete_witness :
  let w := demo_world (Some [FIELDNAMES; ["Ann"; "1"; "a@x"]])
                      None ["Bob"; "2"; "b@x"; " BOB "; "8"] in
  let cs := [("Ann", "1", "a@x")] in
  stored w cs /\
  ~ blank "Bob" /\ ~ blank "2" /\ ~ blank "b@x" /\
  storable (strip "Bob") /\ storable (strip "2") /\ storable (strip "b@x") /\
  lower (strip " BOB ") = lower (strip "Bob") /\
  exists w1 w2,
    add_contact w = Ok tt w1 /\
    delete_contact w1 = Ok tt w2 /\
    csv_file w2 = Some [FIELDNAMES; ["Ann"; "1"; "a@x"]] /\
    stdin w2 = ["8"] /\
    ((forall c, In c cs -> lower (name_of c) <> lower (strip "Bob")) ->
     stored w2 cs).
Proof.
  intros w cs.
  assert (H0 : stored w cs) by reflexivity.
  assert (H1 : ~ blank "Bob") by (unfold blank; vm_compute; discriminate).
  assert (H2 : ~ blank "2") by (unfold blank; vm_compute; discriminate).
  assert (H3 : ~ blank "b@x") by (unfold blank; vm_compute; discriminate).
  assert (S1 : storable (strip "Bob")) by (split; reflexivity).
  assert (S2 : storable (strip "2")) by (split; reflexivity).
  assert (S3 : storable (strip "b@x")) by (split; reflexivity).
  assert (H4 : lower (strip " BOB ") = lower (strip "Bob")) by reflexivity.
  split; [exact H0|]. split; [exact H1|]. split; [exact H2|].
  split; [exact H3|]. split; [exact S1|]. split; [exact S2|].
  split; [exact S3|]. split; [exact H4|].
  exact (@add_then_delete _ w cs "Bob" "2" "b@x" " BOB " ["8"]
           H0 eq_refl H1 H2 H3 S1 S2 S3 H4).
Defined.

(* ================================================================= *)
(** ** Import and export *)

Section Imports.

Context {rt : Runtime}.

Lemma map_JObj_inj (ms ms' : list (list (string * json))) :
  map JObj ms = map JObj ms' -> ms = ms'.
Proof.
  revert ms'. induction ms as [|m ms IH]; intros [|m' ms'] E;
    try discriminate; [reflexivity|].
  cbn [map] in E. injection E as E1 E2. f_equal; [exact E1 | now apply IH].
Qed.

(** X14.  [import_json] never raises, and leaves the interchange file and
    the input as they were.  With no interchange file it prints that the
    file was not found and changes nothing else.  With a file it prints one
    message and logs one line.  When the file does not hold an array of
    objects, the store file is left as it was and the line is an ERROR
    line with the failure.  When it does, the store file is rewritten: the
    header, then the records of the contacts made of the objects, in order,
    up to some point; all of them are there exactly when the line is the
    INFO line with their number. *)
Theorem import_json_outcomes (w : world) :
  exists w',
    import_json w = Ok tt w' /\
    json_file w' = json_file w /\
    stdin w' = stdin w /\
    match json_file w with
    | None =>
        csv_file w' = csv_file w /\
        log_file w' = log_file w /\
        stdout w' = (stdout w ++ ["JSON file not found."])%list
    | Some content =>
        (exists line out,
            log_file w' = (log_file w ++ [line])%list /\
            stdout w' = (stdout w ++ [out])%list) /\
        ((forall ms, content <> Document (JArr (map JObj ms))) ->
         csv_file w' = csv_file w /\
         exists msg,
           log_file w' = (log_file w
                          ++ [log_line (now w) "ERROR"
                                       ("Import JSON failed: " ++ msg)])%list /\
           stdout w' = (stdout w
                        ++ [("Failed to import JSON: " ++ msg)%string])%list) /\
        (forall ms,
            content = Document (JArr (map JObj ms)) ->
            exists k,
              k <= length ms /\
              csv_file w'
              = Some (FIELDNAMES ::
                      firstn k (map row_of (map entry_of_members ms))) /\
              (k = length ms <->
               log_file w' = (log_file w
                              ++ [log_line (now w) "INFO"
                                    ("Imported " ++ of_nat (length ms)
                                     ++ " contacts from JSON.")])%list))
    end.
Proof.
  destruct (json_file w) as [content|] eqn:Hfile.
  - assert (Hcases :
      (exists ms, content = Document (JArr (map JObj ms))) \/
      ((forall ms, content <> Document (JArr (map JObj ms))) /\
       exists e, import_json_try content w = Raise e w)).
    { destruct content as [detail|v].
      - right. split; [discriminate|]. now eexists.
      - destruct v as [| | | | |l|]; try (right; split; [discriminate|];
                                          now eexists).
        destruct (clean l) as [e|cleaned] eqn:El.
        + right. split.
          * intros ms [= ->]. rewrite clean_objects in El. discriminate.
          * exists e. unfold import_json_try, bind at 1. cbn [Json.load ret].
            unfold bind at 1, lift. now rewrite El.
        + left. destruct (clean_inr _ El) as [ms ->]. now exists ms. }
    destruct Hcases as [[ms ->]|[Hnot [e He]]].
    + rewrite (@import_json_objects _ w ms Hfile). eexists.
      split; [reflexivity|]. cbn [json_file stdin log_file stdout csv_file].
      split; [now rewrite Hfile|]. split; [reflexivity|].
      split; [now eexists; eexists|]. split.
      * intros Hno. now destruct (Hno ms).
      * intros ms' E. injection E as E.
        apply map_JObj_inj in E. subst ms'.
        exists (length ms). split; [lia|]. split.
        -- f_equal. f_equal. symmetry.
           rewrite <- (length_map entry_of_members ms).
           rewrite <- (length_map row_of (map entry_of_members ms)).
           apply firstn_all.
        -- now split.
    + rewrite (@import_json_fails _ w content e Hfile He). eexists.
      split; [reflexivity|]. cbn [json_file stdin log_file stdout csv_file].
      split; [now rewrite Hfile|]. split; [reflexivity|].
      split; [now eexists; eexists|]. split.
      * intros _. split; [reflexivity|]. exists (exn_str e). now split.
      * intros ms E. now destruct (Hnot ms).
  - unfold import_json. rewrite Hfile. eexists. split; [reflexivity|].
    cbn. now rewrite Hfile.
Qed.

(** X15.  An array is imported whole or not at all: when some element is
    not an object, [import_json] writes no contact, not even those of the
    objects before it; the store file is what it was, and the one ERROR
    line names the type of the first such element. *)
Theorem import_json_all_or_nothing
        (w : world) (ms : list (list (string * json))) (v : json)
        (rest : list json) :
  json_file w = Some (Document (JArr (map JObj ms ++ v :: rest))) ->
  (forall m, v <> JObj m) ->
  import_json w
  = Ok tt
      {| csv_file := csv_file w;
         json_file := json_file w;
         log_file := (log_file w
                      ++ [log_line (now w) "ERROR"
                            ("Import JSON failed: '" ++ Json.type_name v
                             ++ "' object has no attribute 'get'")])%list;
         stdin := stdin w;
         stdout := (stdout w
                    ++ [("Failed to import JSON: '" ++ Json.type_name v
                         ++ "' object has no attribute 'get'")%string])%list;
         now := now w |}.
Proof.
  intros Hfile Hv.
  assert (Htry : import_json_try
                   (Document (JArr (map JObj ms ++ v :: rest))) w
                 = Raise (AttributeError ("'" ++ Json.type_name v
                                          ++ "' object has no attribute 'get'"))
                         w).
  { unfold import_json_try, bind at 1. cbn [Json.load ret].
    unfold bind at 1, lift. now rewrite (clean_stops ms rest Hv). }
  rewrite (@import_json_fails _ w _ _ Hfile Htry). reflexivity.
Qed.


(** The line [import_json] logs when all the contacts were written. *)
Definition imported_line (w : world) (n : nat) : string :=
  log_line (now w) "INFO" ("Imported " ++ of_nat n ++ " contacts from JSON.").


Lemma dict_get_set_missing {V} (k k' : string) (v : V) (d : list (string * V)) :
  k <> k' -> dict_get k d = None -> dict_get k (dict_set k' v d) = None.
Proof. intros Hk H. now rewrite dict_get_set_other. Qed.

Lemma dict_of_pairs_missing {V} (k : string) (l d : list (string * V)) :
  (forall v, ~ In (k, v) l) ->
  dict_get k d = None ->
  dict_get k (fold_left (fun d kv => dict_set (fst kv) (snd kv) d) l d) = None.
Proof.
  revert d. induction l as [|[k' v'] l IH]; intros d Hno Hd; [exact Hd|].
  cbn [fold_left fst snd]. apply IH.
  - intros v Hv. apply (Hno v). now right.
  - apply dict_get_set_missing; [|exact Hd].
    intros ->. apply (Hno v'). now left.
Qed.

Lemma get_missing (k : string) (default : json) (members : list (string * json)) :
  (forall v, ~ In (k, v) members) -> Json.get k default members = default.
Proof.
  intros Hno. unfold Json.get, Json.dict_of_pairs.
  now rewrite dict_of_pairs_missing.
Qed.

(** X17.  [import_json] does not apply the validation of [add_contact]: in
    the contact made of an object, a field whose key the object lacks is the
    empty text.  So the import of an array of objects one of which has no
    [Name] makes a contact with a blank name, and when it has logged the
    INFO line of the import, the record of that contact is in the store
    file. *)
Theorem import_json_defaults
        (w : world) (ms : list (list (string * json)))
        (m : list (string * json)) :
  json_file w = Some (Document (JArr (map JObj ms))) ->
  In m ms ->
  (forall v, ~ In ("Name", v) m) ->
  exists w' c,
    import_json w = Ok tt w' /\
    c = entry_of_members m /\
    name_of c = "" /\
    blank (name_of c) /\
    ((forall v, ~ In ("Phone", v) m) -> phone_of c = "") /\
    ((forall v, ~ In ("Email", v) m) -> email_of c = "") /\
    (log_file w' = (log_file w ++ [imported_line w (length ms)])%list ->
     exists cs,
       csv_file w' = Some (FIELDNAMES :: map row_of cs) /\
       In c cs).
Proof.
  intros Hfile Hin Hno. rewrite (@import_json_objects _ w ms Hfile).
  eexists. exists (entry_of_members m).
  split; [reflexivity|]. split; [reflexivity|].
  assert (Hstored : exists cs,
             Some (FIELDNAMES :: map row_of (map entry_of_members ms))
             = Some (FIELDNAMES :: map row_of cs) /\
             In (entry_of_members m) cs).
  { exists (map entry_of_members ms). split; [reflexivity|].
    apply (in_map entry_of_members), Hin. }
  cbn [csv_file].
  unfold entry_of_members at 1 2 3 4 5, name_of, phone_of, email_of, blank.
  cbn [fst snd].
  rewrite (@get_missing "Name" _ m Hno). cbn [Json.py_str].
  rewrite !strip_empty.
  split; [reflexivity|]. split; [reflexivity|]. split; [|split].
  - intros H. rewrite (@get_missing "Phone" _ m H). apply strip_empty.
  - intros H. rewrite (@get_missing "Email" _ m H). apply strip_empty.
  - intros _. exact Hstored.
Qed.

End Imports.

Lemma import_json_all_or_nothing_witness :
  let doc := JArr (map JObj [[("Name", JStr "Ann"); ("Phone", JStr "1");
                              ("Email", JStr "a@x")]]
                   ++ JStr "Bob" :: [JObj []]) in
  let w := demo_world (Some [FIELDNAMES; ["Cy"; "3"; "c@x"]])
                      (Some (Document doc)) [] in
  json_file w = Some (Document doc) /\
  (forall m, JStr "Bob" <> JObj m) /\
  import_json w
  = Ok tt
      {| csv_file := Some [FIELDNAMES; ["Cy"; "3"; "c@x"]];
         json_file := json_file w;
         log_file := [log_line (now w) "ERROR"
                        "Import JSON failed: 'str' object has no attribute 'get'"];
         stdin := [];
         stdout := ["Failed to import JSON: 'str' object has no attribute 'get'"];
         now := now w |}.
Proof.
  intros doc w.
  assert (H1 : json_file w = Some (Document doc)) by reflexivity.
  assert (H2 : forall m, JStr "Bob" <> JObj m) by (intros m; discriminate).
  split; [exact H1|]. split; [exact H2|].
  exact (@import_json_all_or_nothing _ w
           [[("Name", JStr "Ann"); ("Phone", JStr "1"); ("Email", JStr "a@x")]]
           (JStr "Bob") [JObj []] H1 H2).
Defined.


Lemma import_json_defaults_witness :
  let m := [("Phone", JStr "7"); ("Nickname", JStr "Z")] in
  let ms := [[("Name", JStr "Ann"); ("Phone", JStr "1"); ("Email", JStr "a@x")]; m] in
  let w := demo_world None (Some (Document (JArr (map JObj ms)))) [] in
  json_file w = Some (Document (JArr (map JObj ms))) /\
  In m ms /\
  (forall v, ~ In ("Name", v) m) /\
  exists w' c,
    import_json w = Ok tt w' /\
    c = ("", "7", "") /\
    name_of c = "" /\
    blank (name_of c) /\
    ((forall v, ~ In ("Phone", v) m) -> phone_of c = "") /\
    ((forall v, ~ In ("Email", v) m) -> email_of c = "") /\
    (log_file w' = [imported_line w 2] ->
     exists cs,
       csv_file w' = Some (FIELDNAMES :: map row_of cs) /\
       In c cs).
Proof.
  intros m ms w.
  assert (H1 : json_file w = Some (Document (JArr (map JObj ms))))
    by reflexivity.
  assert (H2 : In m ms) by (right; left; reflexivity).
  assert (H3 : forall v, ~ In ("Name", v) m).
  { intros v [H|[H|[]]]; discriminate. }
  split; [exact H1|]. split; [exact H2|]. split; [exact H3|].
  exact (@import_json_defaults _ w ms m H1 H2 H3).
Defined.

Lemma of_contact_object (c : entry) :
  Json.of_contact (contact_of c) = object_of c.
Proof. reflexivity. Qed.

(** X18.  On a store holding [cs], [export_json] leaves the store as it
    reads and returns normally.  For no contact it writes no interchange
    file and logs nothing.  Otherwise it replaces the interchange file,
    whatever it held, by an array of one object per contact, in the order
    of the store, each with the members [Name], [Phone], [Email] in this
    order, and logs one INFO line with the number of contacts. *)
Theorem export_json_writes (w : world) (cs : list entry) :
  stored w cs ->
  export_json w
  = Ok tt
      match cs with
      | [] =>
          {| csv_file := Some (store_rows w);
             json_file := json_file w;
             log_file := log_file w;
             stdin := stdin w;
             stdout := (stdout w ++ ["No contacts to export."])%list;
             now := now w |}
      | _ =>
          {| csv_file := Some (store_rows w);
             json_file := Some (Document (JArr (map object_of cs)));
             log_file := (log_file w
                          ++ [log_line (now w) "INFO"
                                ("Exported " ++ of_nat (length cs)
                                 ++ " contacts to JSON.")])%list;
             stdin := stdin w;
             stdout := (stdout w
                        ++ [("Exported " ++ of_nat (length cs)
                             ++ " contacts to contacts.json.")%string])%list;
             now := now w |}
      end.
Proof.
  intros Hst. destruct cs as [|c cs].
  - unfold export_json. rewrite (bind_ok _ (read_contacts_value Hst)).
    reflexivity.
  - rewrite (export_json_entries Hst) by discriminate.
    rewrite map_map. reflexivity.
Qed.

Lemma export_json_writes_witness :
  let cs := [("Ann", "1", "a@x"); ("Bob", "2", "b@x")] in
  let w := demo_world (Some [FIELDNAMES; ["Ann"; "1"; "a@x"]; ["Bob"; "2"; "b@x"]])
                      (Some (Unparseable "Expecting value")) [] in
  stored w cs /\
  export_json w
  = Ok tt
      {| csv_file := csv_file w;
         json_file :=
           Some (Document
                   (JArr [JObj [("Name", JStr "Ann"); ("Phone", JStr "1");
                                ("Email", JStr "a@x")];
                          JObj [("Name", JStr "Bob"); ("Phone", JStr "2");
                                ("Email", JStr "b@x")]]));
         log_file := [log_line (now w) "INFO" "Exported 2 contacts to JSON."];
         stdin := [];
         stdout := ["Exported 2 contacts to contacts.json."];
         now := now w |}.
Proof.
  intros cs w.
  assert (H0 : stored w cs) by reflexivity.
  split; [exact H0|].
  exact (@export_json_writes w cs H0).
Defined.

(* ----------------------------------------------------------------- *)
(** ** Store files with short and long records *)

Section Ragged.

Context {rt : Runtime}.

Lemma clean_one_row (row : list string) :
  row <> [] ->
  clean_one (Json.of_contact (Csv.row_to_dict FIELDNAMES row))
  = inr (contact_of (reimported row)).
Proof.
  intros Hne.
  destruct row as [|a [|b [|c [|d row]]]]; [contradiction| | | |]; reflexivity.
Qed.

Lemma clean_rows (rows : list (list string)) :
  Forall (fun r => r <> []) rows ->
  clean (map Json.of_contact (map (Csv.row_to_dict FIELDNAMES) rows))
  = inr (map contact_of (map reimported rows)).
Proof.
  induction 1 as [|row rows Hrow _ IH]; [reflexivity|].
  cbn [map clean]. rewrite (clean_one_row Hrow), IH. reflexivity.
Qed.

(** X19.  Export and import on a store file with short or long records:
    when the file, one whose fields are read as written, has the header
    [Name,Phone,Email] and at least one record, none blank, [export_json]
    followed by [import_json] rewrites the store with one contact per
    record, made of its first three fields, trimmed.  A field the record
    lacks comes back as the text [None], trimmed (the JSON null is printed
    by [str]); fields beyond the third are dropped. *)
Theorem export_import_ragged (w : world) (rows : list (list string)) :
  csv_file w = Some (FIELDNAMES :: rows) ->
  readable (FIELDNAMES :: rows) ->
  rows <> [] ->
  Forall (fun r => r <> []) rows ->
  exists w1 w2,
    export_json w = Ok tt w1 /\
    import_json w1 = Ok tt w2 /\
    csv_file w2 = Some (FIELDNAMES :: map row_of (map reimported rows)) /\
    (forall row, In row rows -> length row < 3 ->
                 email_of (reimported row) = strip "None").
Proof.
  intros Hfile Hread Hne Hrows.
  assert (Hex : export_json w
                = Ok tt
                    (set_stdout
                       (stdout w ++ [("Exported " ++ of_nat (length rows)
                                      ++ " contacts to contacts.json.")%string])%list
                       (set_log
                          (log_file w ++ [log_line (now w) "INFO"
                                            ("Exported " ++ of_nat (length rows)
                                             ++ " contacts to JSON.")%string])%list
                          (set_json
                             (Some (Document
                                      (JArr (map Json.of_contact
                                                 (map (Csv.row_to_dict FIELDNAMES)
                                                      rows)))))
                             w)))).
  { unfold export_json.
    read_rows Hfile Hread.
    unfold store_rows. rewrite Hfile, (dicts_nonblank _ Hrows).
    rewrite set_csv_same by exact Hfile.
    destruct rows as [|r rows]; [contradiction|].
    cbn [map]. unfold Json.dump, print, write_log, try_except, bind, ret.
    cbn. now rewrite !length_map. }
  rewrite Hex. eexists. eexists. split; [reflexivity|].
  unfold import_json. cbn [json_file set_stdout set_log set_json].
  unfold try_except, import_json_try.
  unfold bind at 1. cbn [Json.load ret].
  unfold bind at 1, lift. rewrite (clean_rows Hrows).
  rewrite (bind_ok _ (write_contacts_entries _ _)).
  split; [reflexivity|]. split; [reflexivity|].
  intros row _ Hlen.
  destruct row as [|a [|b [|c row]]]; try reflexivity. cbn in Hlen. lia.
Qed.

Lemma dict_to_list_short (row : list string) :
  row <> [] -> length row <= 3 ->
  Csv.dict_to_list FIELDNAMES (Csv.row_to_dict FIELDNAMES row)
  = inr (row_of (padded row)).
Proof.
  intros Hne Hlen. unfold Csv.dict_to_list, Csv.wrong_fields.
  destruct row as [|a [|b [|c [|d row]]]];
    [contradiction| | | |cbn in Hlen; lia]; cbn; now rewrite set_order_nil.
Qed.

Lemma dict_to_list_long (row : list string) :
  3 < length row ->
  Csv.dict_to_list FIELDNAMES (Csv.row_to_dict FIELDNAMES row)
  = inl (ValueError "dict contains fields not in fieldnames: None").
Proof.
  intros Hlen. unfold Csv.dict_to_list, Csv.wrong_fields.
  destruct row as [|a [|b [|c [|d row]]]]; try (cbn in Hlen; lia).
  cbn. now rewrite set_order_one.
Qed.

Lemma writerows_short (rows : list (list string)) (tail : list entry)
      (w : world) (old : list (list string)) :
  Forall (fun r => r <> [] /\ length r <= 3) rows ->
  csv_file w = Some old ->
  Csv.writerows FIELDNAMES
    (map (Csv.row_to_dict FIELDNAMES) rows ++ map contact_of tail)%list w
  = Ok tt (set_csv (Some (old ++ map row_of (map padded rows ++ tail))%list) w).
Proof.
  intros H. revert w old. induction H as [|row rows [Hne Hlen] _ IH];
    intros w old Hold.
  - cbn [map app]. now apply writerows_entries.
  - cbn [map app Csv.writerows]. unfold bind at 1, lift.
    rewrite (dict_to_list_short Hne Hlen).
    unfold bind at 1, Csv.writerow. rewrite Hold.
    rewrite (IH _ (old ++ [row_of (padded row)])%list) by reflexivity.
    cbn. now rewrite <- app_assoc.
Qed.

Lemma write_contacts_short (rows : list (list string)) (tail : list entry)
      (w : world) :
  Forall (fun r => r <> [] /\ length r <= 3) rows ->
  write_contacts
    (map (Csv.row_to_dict FIELDNAMES) rows ++ map contact_of tail)%list w
  = Ok tt (set_csv (Some (FIELDNAMES :: map row_of (map padded rows ++ tail))) w).
Proof.
  intros H. unfold write_contacts, bind at 1, Csv.truncate.
  unfold bind at 1, Csv.writeheader, Csv.writerow. cbn [csv_file set_csv].
  rewrite (@writerows_short rows tail _ [FIELDNAMES] H) by reflexivity.
  reflexivity.
Qed.

(** X20.  A rewrite pads short records: when the store file, one whose
    fields are read as written, has the header [Name,Phone,Email] and
    records of one to three fields, [add_contact] with three non-blank
    fields returns normally and writes every old record back with three
    fields, the missing ones empty, followed by the new contact. *)
Theorem add_contact_pads_short_rows
        (w : world) (rows : list (list string))
        (name phone email : string) (more : list string) :
  csv_file w = Some (FIELDNAMES :: rows) ->
  readable (FIELDNAMES :: rows) ->
  Forall (fun r => r <> [] /\ length r <= 3) rows ->
  stdin w = name :: phone :: email :: more ->
  ~ blank name -> ~ blank phone -> ~ blank email ->
  add_contact w
  = Ok tt
      {| csv_file := Some (FIELDNAMES ::
                           map row_of (map padded rows
                                       ++ [(strip name, strip phone,
                                            strip email)]));
         json_file := json_file w;
         log_file := (log_file w
                      ++ [log_line (now w) "INFO"
                                   ("Added contact: " ++ strip name)])%list;
         stdin := more;
         stdout := (stdout w ++ ["Name: "; "Phone: "; "Email: ";
                                 "Contact added."])%list;
         now := now w |}.
Proof.
  intros Hfile Hread Hrows Hin Hn Hp He. unfold add_contact.
  do 3 read_line.
  rewrite (eqb_nonempty Hn), (eqb_nonempty Hp), (eqb_nonempty He).
  cbn [orb].
  read_rows Hfile Hread.
  change (store_rows (set_stdin _ _)) with (store_rows w).
  unfold store_rows at 1. rewrite Hfile.
  rewrite dicts_nonblank
    by (apply Forall_impl with (2 := Hrows); now intros r [H _]).
  change [new_contact (strip name) (strip phone) (strip email)]
    with (map contact_of [(strip name, strip phone, strip email)]).
  rewrite (bind_ok _ (write_contacts_short _ _ Hrows)).
  finish_run.
Qed.

Lemma writerows_stops (pre : list entry) (bad : contact) (rest : list contact)
      (e : exn) (w : world) (old : list (list string)) :
  Csv.dict_to_list FIELDNAMES bad = inl e ->
  csv_file w = Some old ->
  Csv.writerows FIELDNAMES (map contact_of pre ++ bad :: rest)%list w
  = Raise e (set_csv (Some (old ++ map row_of pre)%list) w).
Proof.
  intros Hbad. revert w old. induction pre as [|c pre IH]; intros w old Hold.
  - cbn [map app Csv.writerows]. unfold bind at 1, lift. rewrite Hbad.
    rewrite app_nil_r. now rewrite set_csv_same.
  - cbn [map app Csv.writerows]. unfold bind at 1, lift.
    rewrite dict_to_list_contact_of.
    unfold bind at 1, Csv.writerow. rewrite Hold.
    rewrite (IH _ (old ++ [row_of c])%list) by reflexivity.
    cbn. now rewrite <- app_assoc.
Qed.

Lemma write_contacts_stops (pre : list entry) (bad : contact)
      (rest : list contact) (e : exn) (w : world) :
  Csv.dict_to_list FIELDNAMES bad = inl e ->
  write_contacts (map contact_of pre ++ bad :: rest)%list w
  = Raise e (set_csv (Some (FIELDNAMES :: map row_of pre)) w).
Proof.
  intros H. unfold write_contacts, bind at 1, Csv.truncate.
  unfold bind at 1, Csv.writeheader, Csv.writerow. cbn [csv_file set_csv].
  rewrite (@writerows_stops pre bad rest e _ [FIELDNAMES] H) by reflexivity.
  reflexivity.
Qed.

(** X21.  A record with more than three fields makes every rewrite fail and
    lose contacts: when the store file, one whose fields are read as
    written, has the header [Name,Phone,Email], the records of the contacts
    [pre], then such a record, [add_contact] with three non-blank fields
    raises [ValueError] out of [write_contacts] after the file was emptied
    and rewritten up to that record.  The file is left with the header and
    the records of [pre]: the long record, every record after it and the
    new contact are not in it, and nothing is logged. *)
Theorem add_contact_long_row
        (w : world) (pre : list entry) (long : list string)
        (rest : list (list string))
        (name phone email : string) (more : list string) :
  csv_file w = Some (FIELDNAMES :: map row_of pre ++ long :: rest) ->
  readable (FIELDNAMES :: map row_of pre ++ long :: rest) ->
  3 < length long ->
  stdin w = name :: phone :: email :: more ->
  ~ blank name -> ~ blank phone -> ~ blank email ->
  add_contact w
  = Raise (ValueError "dict contains fields not in fieldnames: None")
      {| csv_file := Some (FIELDNAMES :: map row_of pre);
         json_file := json_file w;
         log_file := log_file w;
         stdin := more;
         stdout := (stdout w ++ ["Name: "; "Phone: "; "Email: "])%list;
         now := now w |}.
Proof.
  intros Hfile Hread Hlen Hin Hn Hp He. unfold add_contact.
  do 3 read_line.
  rewrite (eqb_nonempty Hn), (eqb_nonempty Hp), (eqb_nonempty He).
  cbn [orb].
  read_rows Hfile Hread.
  change (store_rows (set_stdin _ _)) with (store_rows w).
  unfold store_rows at 1. rewrite Hfile.
  assert (Hne : long <> []) by (destruct long; [cbn in Hlen; lia | discriminate]).
  rewrite dicts_app, dicts_rows, (dicts_cons _ _ Hne).
  rewrite <- app_assoc. cbn [app].
  unfold bind at 1.
  rewrite (@write_contacts_stops pre _ _ _ _ (@dict_to_list_long long Hlen)).
  cbn. now rewrite <- !app_assoc.
Qed.

End Ragged.

Lemma export_import_ragged_witness :
  let rows := [["Ann"; "1"]; ["Bob"; "2"; "b@x"; "more"]] in
  let w := demo_world (Some (FIELDNAMES :: rows)) None [] in
  csv_file w = Some (FIELDNAMES :: rows) /\
  readable (FIELDNAMES :: rows) /\
  rows <> [] /\
  Forall (fun r => r <> []) rows /\
  exists w1 w2,
    export_json w = Ok tt w1 /\
    import_json w1 = Ok tt w2 /\
    csv_file w2 = Some [FIELDNAMES; ["Ann"; "1"; "None"]; ["Bob"; "2"; "b@x"]] /\
    (forall row, In row rows -> length row < 3 ->
                 email_of (reimported row) = "None").
Proof.
  intros rows w.
  assert (H1 : csv_file w = Some (FIELDNAMES :: rows)) by reflexivity.
  assert (Hr : readable (FIELDNAMES :: rows)) by (repeat constructor).
  assert (H2 : rows <> []) by discriminate.
  assert (H3 : Forall (fun r => r <> []) rows)
    by (repeat constructor; discriminate).
  split; [exact H1|]. split; [exact Hr|]. split; [exact H2|].
  split; [exact H3|].
  exact (@export_import_ragged _ w rows H1 Hr H2 H3).
Defined.

Lemma add_contact_pads_short_rows_witness :
  let rows := [["Ann"; "1"]; ["Bob"]] in
  let w := demo_world (Some (FIELDNAMES :: rows)) None ["Cy"; "3"; "c@x"] in
  csv_file w = Some (FIELDNAMES :: rows) /\
  readable (FIELDNAMES :: rows) /\
  Forall (fun r => r <> [] /\ length r <= 3) rows /\
  ~ blank "Cy" /\ ~ blank "3" /\ ~ blank "c@x" /\
  add_contact w
  = Ok tt
      {| csv_file := Some [FIELDNAMES; ["Ann"; "1"; ""]; ["Bob"; ""; ""];
                           ["Cy"; "3"; "c@x"]];
         json_file := None;
         log_file := [log_line (now w) "INFO" "Added contact: Cy"];
         stdin := [];
         stdout := ["Name: "; "Phone: "; "Email: "; "Contact added."];
         now := now w |}.
Proof.
  intros rows w.
  assert (H1 : csv_file w = Some (FIELDNAMES :: rows)) by reflexivity.
  assert (Hr : readable (FIELDNAMES :: rows)) by (repeat constructor).
  assert (H2 : Forall (fun r => r <> [] /\ length r <= 3) rows).
  { repeat constructor; try discriminate; cbn; lia. }
  assert (H3 : ~ blank "Cy") by (unfold blank; vm_compute; discriminate).
  assert (H4 : ~ blank "3") by (unfold blank; vm_compute; discriminate).
  assert (H5 : ~ blank "c@x") by (unfold blank; vm_compute; discriminate).
  split; [exact H1|]. split; [exact Hr|]. split; [exact H2|].
  split; [exact H3|]. split; [exact H4|]. split; [exact H5|].
  exact (@add_contact_pads_short_rows _ w rows "Cy" "3" "c@x" []
           H1 Hr H2 eq_refl H3 H4 H5).
Defined.

Lemma add_contact_long_row_witness :
  let w := demo_world (Some [FIELDNAMES; ["Ann"; "1"; "a@x"];
                             ["Bob"; "2"; "b@x"; "more"]; ["Cy"; "3"; "c@x"]])
                      None ["Dee"; "4"; "d@x"] in
  csv_file w = Some (FIELDNAMES :: map row_of [("Ann", "1", "a@x")]
                                ++ ["Bob"; "2"; "b@x"; "more"]
                                :: [["Cy"; "3"; "c@x"]]) /\
  readable (FIELDNAMES :: map row_of [("Ann", "1", "a@x")]
                       ++ ["Bob"; "2"; "b@x"; "more"]
                       :: [["Cy"; "3"; "c@x"]]) /\
  3 < length ["Bob"; "2"; "b@x"; "more"] /\
  ~ blank "Dee" /\ ~ blank "4" /\ ~ blank "d@x" /\
  add_contact w
  = Raise (ValueError "dict contains fields not in fieldnames: None")
      {| csv_file := Some [FIELDNAMES; ["Ann"; "1"; "a@x"]];
         json_file := None;
         log_file := [];
         stdin := [];
         stdout := ["Name: "; "Phone: "; "Email: "];
         now := now w |}.
Proof.
  intros w.
  assert (H1 : csv_file w
               = Some (FIELDNAMES :: map row_of [("Ann", "1", "a@x")]
                                  ++ ["Bob"; "2"; "b@x"; "more"]
                                  :: [["Cy"; "3"; "c@x"]])) by reflexivity.
  assert (Hr : readable (FIELDNAMES :: map row_of [("Ann", "1", "a@x")]
                                    ++ ["Bob"; "2"; "b@x"; "more"]
                                    :: [["Cy"; "3"; "c@x"]]))
    by (repeat constructor).
  assert (H2 : 3 < length ["Bob"; "2"; "b@x"; "more"]) by (cbn; lia).
  assert (H3 : ~ blank "Dee") by (unfold blank; vm_compute; discriminate).
  assert (H4 : ~ blank "4") by (unfold blank; vm_compute; discriminate).
  assert (H5 : ~ blank "d@x") by (unfold blank; vm_compute; discriminate).
  split; [exact H1|]. split; [exact Hr|]. split; [exact H2|].
  split; [exact H3|]. split; [exact H4|]. split; [exact H5|].
  exact (@add_contact_long_row _ w [("Ann", "1", "a@x")]
           ["Bob"; "2"; "b@x"; "more"] [["Cy"; "3"; "c@x"]]
           "Dee" "4" "d@x" [] H1 Hr H2 eq_refl H3 H4 H5).
Defined.
